(** * The symbolic [Controlled] operator of PennyLane

    A shallow embedding of [pennylane/ops/op_math/controlled_class.py]:
    the [Controlled] wrapper class, its [ControlledOperation] mixin, and the
    linear-algebra constructions they perform (block-diagonal embedding,
    sparse patching, eigenvalue padding), followed by the properties of
    these definitions.

    Python integers are [Z]; sequences are lists; exceptions are an explicit
    [result] type; warnings and queuing are events of a writer monad. *)

From Stdlib Require Import ZArith List Lia Bool Ascii String.
From stdpp Require Import base option list gmap strings sorting.
From stdpp Require Import pretty fin_sets.

Set Default Proof Using "Type".
Local Open Scope Z_scope.

(** ** Python values, exceptions and effects *)

(** The exception classes that this module raises or lets through. *)
Inductive exn_kind :=
  | AssertionError
  | AttributeError
  | WireError
  | NotImplementedError
  | ValueError
  | MatrixUndefinedError
  | SparseMatrixUndefinedError
  | EigvalsUndefinedError
  | GeneratorUndefinedError
  | ParameterFrequenciesUndefinedError
  | DecompositionUndefinedError
  | AdjointUndefinedError
  | PowUndefinedError.

#[global] Instance exn_kind_eq_dec : EqDecision exn_kind.
Proof. solve_decision. Defined.

(** A raised exception: its class, its message, and the class of the
    exception it was chained from ([raise ... from e]). *)
Record exn := mk_exn {
  exn_class : exn_kind;
  exn_msg : string;
  exn_cause : option exn_kind
}.

Inductive result (A : Type) :=
  | Ok (a : A)
  | Raise (e : exn).
Arguments Ok {A} a.
Arguments Raise {A} e.

Definition is_ok {A} (r : result A) : bool :=
  match r with Ok _ => true | Raise _ => false end.

Definition rbind {A B} (r : result A) (k : A -> result B) : result B :=
  match r with
  | Ok a => k a
  | Raise e => Raise e
  end.

(** [assert cond, msg] *)
Definition assert_ (cond : bool) (msg : string) : result unit :=
  if cond then Ok tt else Raise (mk_exn AssertionError msg None).

(** Elements that a caller may put in a [control_values] sequence. *)
Inductive pyval :=
  | PyBool (b : bool)
  | PyInt (n : Z)
  | PyStr (s : string).

Abbreviation PyTrue := (PyBool true).
Abbreviation PyFalse := (PyBool false).

(** Python truth value testing ([if val], [all(...)], [not val]). *)
Definition truthy (v : pyval) : bool :=
  match v with
  | PyBool b => b
  | PyInt n => negb (n =? 0)
  | PyStr s => negb (String.eqb s "")
  end.

(** Membership in the set [{False, True}]: Python compares by [==] and
    hash, under which [1 == True] and [0 == False]. *)
Definition in_False_True (v : pyval) : bool :=
  match v with
  | PyBool _ => true
  | PyInt n => (n =? 0) || (n =? 1)
  | PyStr _ => false
  end.

(** [set(control_values).issubset({False, True})] *)
Definition issubset_False_True (vs : list pyval) : bool :=
  forallb in_False_True vs.

(** ** Wires *)

Inductive wire :=
  | WInt (n : Z)
  | WStr (s : string).

#[global] Instance wire_eq_dec : EqDecision wire.
Proof. solve_decision. Defined.

(** A [Wires] object is an ordered sequence of wire labels. *)
Abbreviation Wires := (list wire).

(** Modelled from the spec: the constructor [Wires(...)] is defined in
    [pennylane/wires.py]; its argument "must be convertible to a
    wire-identifier sequence", which keeps the labels in their order and
    raises [WireError] when a label is repeated. The message is the
    library's without the labels it prints. *)
Definition Wires_new (labels : list wire) : result Wires :=
  if bool_decide (NoDup labels) then Ok labels
  else Raise (mk_exn WireError "Wires must be unique" None).

(** Modelled from the spec: [Wires.shared_wires] is defined in
    [pennylane/wires.py]; it returns the wires that both sequences have
    ("control_wires must share no wire with base's wires"). *)
Definition shared_wires (a b : Wires) : Wires :=
  filter (fun w => w ∈ b) a.

(** Modelled from the spec: the sum of [Wires] objects is defined in
    [pennylane/wires.py]; "wires = control_wires ++ base.wires ++ work_wires
    (concatenation, order preserved)". *)
Definition Wires_add (a b : Wires) : Wires := a ++ b.

(** ** Arrays *)

Inductive dtype := int64 | float64 | complex128.

#[global] Instance dtype_eq_dec : EqDecision dtype.
Proof. solve_decision. Defined.

(** NumPy's type promotion on the three numeric kinds. *)
Definition result_type (a b : dtype) : dtype :=
  match a, b with
  | complex128, _ | _, complex128 => complex128
  | float64, _ | _, float64 => float64
  | int64, int64 => int64
  end.

(** A two-dimensional dense array: element type tag and rows. *)
Record ndarray (C : Type) := mk_ndarray {
  nd_dtype : dtype;
  nd_rows : list (list C)
}.
Arguments mk_ndarray {C} _ _.
Arguments nd_dtype {C} _.
Arguments nd_rows {C} _.

(** The numeric backend: the scalars that arrays hold, with the operations
    of [numpy], [pennylane.operation] and [qml.gradients] that the module
    calls on them. *)
Class Scalar (C : Type) := {
  czero : C;
  cone : C;
  (** [x != 0], used when a dense array is sparsified *)
  is_nonzero : C -> bool;
  is_nonzero_false : forall x, is_nonzero x = false -> x = czero;
  (** [np.round(x, 8)] *)
  round8 : C -> C;
  (** [qml.gradients.eigvals_to_frequencies] *)
  eigvals_to_frequencies : list C -> list C;
  (** [operation.expand_matrix(mat, wires=..., wire_order=...)], which
      raises when [wire_order] cannot be converted or lacks one of [wires] *)
  expand_matrix : ndarray C -> Wires -> list wire -> result (ndarray C)
}.

Definition nd_nrows {C} (a : ndarray C) : nat := length (nd_rows a).
Definition nd_ncols {C} (a : ndarray C) : nat :=
  match nd_rows a with
  | [] => 0%nat
  | r :: _ => length r
  end.

(** [a[i, j]] for indices in range. *)
Definition nd_get {C} (a : ndarray C) (i j : nat) : option C :=
  nd_rows a !! i ≫= fun r => r !! j.

#[global] Instance result_ret : MRet result := @Ok.
#[global] Instance result_bind : MBind result :=
  fun A B k r => rbind r k.
#[global] Instance result_fmap : FMap result :=
  fun A B f r => rbind r (fun a => Ok (f a)).

(** A base method whose representation is undefined raises the error class
    of that representation. *)
Definition or_raise {A} (o : option A) (k : exn_kind) : result A :=
  match o with
  | Some a => Ok a
  | None => Raise (mk_exn k "" None)
  end.

Section Arrays.
Context {C : Type} `{!Scalar C}.

(** row [i] of the identity of size [n] *)
Definition eye_row (n i : nat) : list C :=
  (fun j => if decide (i = j) then cone else czero) <$> seq 0 n.

Definition eye_rows (n : nat) : list (list C) :=
  eye_row n <$> seq 0 n.

(** Modelled from the spec: [qmlmath.eye] is defined in [pennylane/math];
    "identity block of size n". NumPy's [eye] gives floats and rejects a
    negative size. *)
Definition eye (n : Z) : result (ndarray C) :=
  if n <? 0
  then Raise (mk_exn ValueError "negative dimensions are not allowed" None)
  else Ok (mk_ndarray float64 (eye_rows (Z.to_nat n))).

(** Modelled from the spec: [qmlmath.cast_like(x, 1j)] is defined in
    [pennylane/math]; "Cast to complex". *)
Definition cast_like_1j (a : ndarray C) : ndarray C :=
  mk_ndarray complex128 (nd_rows a).

Fixpoint block_diag_rows (left total : nat) (arrs : list (ndarray C))
  : list (list C) :=
  match arrs with
  | [] => []
  | a :: rest =>
      ((fun r => replicate left czero ++ r
                 ++ replicate (total - left - nd_ncols a)%nat czero)
         <$> nd_rows a)
      ++ block_diag_rows (left + nd_ncols a)%nat total rest
  end.

(** Modelled from the spec: [qmlmath.block_diag] is defined in
    [pennylane/math]; the blocks are "concatenated along the diagonal",
    zero elsewhere, with the promoted element type of the blocks. *)
Definition block_diag (arrs : list (ndarray C)) : ndarray C :=
  mk_ndarray (foldr result_type int64 (nd_dtype <$> arrs))
             (block_diag_rows 0 (foldr Nat.add 0%nat (nd_ncols <$> arrs)) arrs).

(** [np.ones(n)] *)
Definition ones (n : Z) : result (list C) :=
  if n <? 0
  then Raise (mk_exn ValueError "negative dimensions are not allowed" None)
  else Ok (replicate (Z.to_nat n) cone).

(** A [scipy.sparse] matrix: shape, storage format, element type tag, and
    the stored entries. *)
Record spmatrix := mk_spmatrix {
  sp_nrows : nat;
  sp_ncols : nat;
  sp_format : string;
  sp_dtype : dtype;
  sp_data : gmap (nat * nat) C
}.

(** [m[i, j]]: entries that are not stored are zero. *)
Definition sp_get (m : spmatrix) (i j : nat) : option C :=
  if decide (i < sp_nrows m ∧ j < sp_ncols m)%nat
  then Some (default czero (sp_data m !! (i, j)))
  else None.

Definition indices (r c : nat) : list (nat * nat) :=
  i ← seq 0 r; (fun j => (i, j)) <$> seq 0 c.

(** [sparse.eye(n, format=..., dtype=...)] *)
Definition sparse_eye (n : Z) (format : string) (dt : dtype) : spmatrix :=
  let k := Z.to_nat n in
  mk_spmatrix k k format dt
    (foldr (fun i acc => <[(i, i) := cone]> acc) ∅ (seq 0 k)).

(** the entry of [a] at [ij] is stored when it is not zero *)
Definition store_nonzero (a : ndarray C) (ij : nat * nat)
    (acc : gmap (nat * nat) C) : gmap (nat * nat) C :=
  match nd_get a ij.1 ij.2 with
  | Some v => if is_nonzero v then <[ij := v]> acc else acc
  | None => acc
  end.

(** [sparse.lil_matrix(a)] of a dense array keeps its non-zero entries. *)
Definition lil_matrix (a : ndarray C) : spmatrix :=
  mk_spmatrix (nd_nrows a) (nd_ncols a) "lil" (nd_dtype a)
    (foldr (store_nonzero a) ∅ (indices (nd_nrows a) (nd_ncols a))).

(** entry [ij] of the slice at [(lo, lo')] takes entry [ij] of [t] *)
Definition assign_entry (t : gmap (nat * nat) C) (lo lo' : nat)
    (ij : nat * nat) (acc : gmap (nat * nat) C) : gmap (nat * nat) C :=
  match t !! ij with
  | Some v => <[(lo + ij.1, lo' + ij.2)%nat := v]> acc
  | None => delete (lo + ij.1, lo' + ij.2)%nat acc
  end.

(** [m[start:stop, start:stop] = t] for non-negative bounds: the slice is
    clipped to the shape of [m], the shape of [t] has to be that of the
    slice, and each entry of the slice takes the entry of [t]. *)
Definition sp_set_block (m : spmatrix) (start stop : Z) (t : spmatrix)
  : result spmatrix :=
  let lo := Z.to_nat (Z.min start (Z.of_nat (sp_nrows m))) in
  let hi := Z.to_nat (Z.min stop (Z.of_nat (sp_nrows m))) in
  let lo' := Z.to_nat (Z.min start (Z.of_nat (sp_ncols m))) in
  let hi' := Z.to_nat (Z.min stop (Z.of_nat (sp_ncols m))) in
  if bool_decide (sp_nrows t = (hi - lo)%nat ∧ sp_ncols t = (hi' - lo')%nat)
  then
    Ok (mk_spmatrix (sp_nrows m) (sp_ncols m) (sp_format m) (sp_dtype m)
          (foldr (assign_entry (sp_data t) lo lo') (sp_data m)
                 (indices (hi - lo) (hi' - lo'))))
  else Raise (mk_exn ValueError "shape mismatch in assignment" None).

(** [m.asformat(format)] *)
Definition asformat (m : spmatrix) (format : string) : spmatrix :=
  mk_spmatrix (sp_nrows m) (sp_ncols m) format (sp_dtype m) (sp_data m).
End Arrays.
Arguments spmatrix C : clear implicits.

(** ** The base operator *)

(** What [Controlled] consumes from the operator it wraps. An optional
    representation is [None] when the base raises the [...UndefinedError]
    of that representation. *)
Class Operator (C G O : Type) := {
  (** [isinstance(base, operation.Operation)] *)
  op_is_operation : O -> bool;
  (** [isinstance(base, operation.Observable)] *)
  op_is_observable : O -> bool;
  op_name : O -> string;
  op_wires : O -> Wires;
  op_num_params : O -> Z;
  op_matrix : O -> option (ndarray C);
  op_sparse_matrix : O -> option (spmatrix C);
  op_eigvals : O -> option (list C);
  (** the observable [G] that [qml.generator(op, format="observable")]
      returns, and [qml.eigvals] of it *)
  op_generator : O -> option G;
  gen_eigvals : G -> list C;
  op_adjoint : O -> option O;
  op_pow : O -> C -> option (list O);
  (** [op._inverse = boolean] and [op.inv()], on the base object *)
  op_set_inverse : O -> bool -> O;
  op_inv : O -> O
}.

(** ** The Controlled class *)

(** The four types that [Controlled.__new__] instantiates. *)
Inductive variant :=
  | OperationObservable
  | OperationOnly
  | ObservableOnly
  | Neither.

(** Whether [ControlledOperation] is among the parents of the type. *)
Definition has_ControlledOperation (v : variant) : bool :=
  match v with
  | OperationObservable | OperationOnly => true
  | ObservableOnly | Neither => false
  end.

(** A [control_values] argument other than [None]: a string (the
    deprecated form) or a sequence. *)
Inductive control_values_arg :=
  | CVStr (s : string)
  | CVSeq (vs : list pyval).

Section Controlled.
Context {C G O : Type} `{!Scalar C} `{!Operator C G O}.

(** An instance: its type, the [hyperparameters] entries, [_name], [_id].
    [queue_idx] is [None] throughout and is left out. *)
Record Controlled := mk_Controlled {
  type_of : variant;
  base : O;
  control_wires : Wires;
  control_values : list pyval;
  work_wires : Wires;
  _name : string;
  _id : option string
}.

(** The operators that a decomposition lists. *)
Inductive gate :=
  | PauliX (w : wire)
  | ControlledGate (c : Controlled).

(** What a call leaves behind besides its result. *)
Inductive event :=
  | Warn (category msg : string)
  | SafeUpdateInfo (b : O) (owner : Controlled)
  | Append (g : gate).

(** Computations that log events and may raise. *)
Definition M (A : Type) : Type := list event * result A.

Definition M_ret {A} (a : A) : M A := ([], Ok a).
Definition M_bind {A B} (m : M A) (k : A -> M B) : M B :=
  match m.2 with
  | Ok a => (m.1 ++ (k a).1, (k a).2)
  | Raise e => (m.1, Raise e)
  end.
Definition emit (e : event) : M unit := ([e], Ok tt).
Definition lift {A} (r : result A) : M A := ([], r).

#[global] Instance M_mret : MRet M := @M_ret.
#[global] Instance M_mbind : MBind M := fun A B k m => M_bind m k.

(** [Controlled.__new__], called on the class [Controlled]: which of the
    four types the new object has. The class creates each of the three
    derived types at its first use and keeps it in a class attribute, so
    that a [variant] stands for one type object. *)
Definition __new__ (b : O) : variant :=
  if op_is_operation b then
    if op_is_observable b then OperationObservable else OperationOnly
  else if op_is_observable b then ObservableOnly
  else Neither.

(** [Controlled.queue] *)
Definition queue (c : Controlled) : M Controlled :=
  emit (SafeUpdateInfo (base c) c);;
  emit (Append (ControlledGate c));;
  mret c.

(** [Controlled.__init__], after [__new__] has chosen the type. The wire
    arguments [cw] and [ww] are the sequences of labels that the caller
    passes; [Wires(...)] converts them where the source does. *)
Definition __init__ (b : O) (cw : list wire) (cv : option control_values_arg)
    (ww : option (list wire)) (do_queue : bool) (id : option string)
  : M Controlled :=
  cw ← lift (Wires_new cw);
  control_values ←
    match cv with
    | None => mret (replicate (length cw) PyTrue)
    | Some given =>
        control_values ←
          match given with
          | CVStr s =>
              emit (Warn "UserWarning"
                "Specifying control values as a string is deprecated. Please use Sequence[Bool]");;
              mret ((fun x => PyBool (Ascii.eqb x "1"%char))
                      <$> String.list_ascii_of_string s)
          | CVSeq vs => mret vs
          end;
        lift (assert_ (bool_decide (length control_values = length cw))
                "control_values should be the same length as control_wires");;
        lift (assert_ (issubset_False_True control_values)
                "control_values can only take on True or False");;
        mret control_values
    end;
  lift (assert_ (bool_decide (length (shared_wires (op_wires b) cw) = 0%nat))
          "The control wires must be different from the base operation wires.");;
  ww ← lift (match ww with None => Wires_new [] | Some w => Wires_new w end);
  let self :=
    mk_Controlled (__new__ b) b cw control_values ww
      ("C" +:+ op_name b) id in
  if do_queue then queue self else mret self.
End Controlled.
Arguments Controlled O : clear implicits.
Arguments gate O : clear implicits.
Arguments event O : clear implicits.
Arguments M O A : clear implicits.

Section Methods.
Context {C G O : Type} `{!Scalar C} `{!Operator C G O}.
Implicit Types c : Controlled O.

(** [enumerate(l)] *)
Definition enumerate {A} (l : list A) : list (Z * A) :=
  imap (fun i x => (Z.of_nat i, x)) l.

(** [sum(l)] *)
Definition sum (l : list Z) : Z := fold_left Z.add l 0.

(** [Controlled._control_int] *)
Definition _control_int c : Z :=
  sum ((fun p => 2 ^ p.1)
         <$> filter (fun p => truthy p.2) (enumerate (reverse (control_values c)))).

Definition target_wires c : Wires := op_wires (base c).

(** [Controlled.wires] *)
Definition wires c : Wires :=
  Wires_add (Wires_add (control_wires c) (op_wires (base c))) (work_wires c).

Definition num_params c : Z := op_num_params (base c).

(** [len(x)] *)
Definition len {A} (l : list A) : Z := Z.of_nat (length l).

(** [Controlled.matrix]. The interface of the base matrix selects the
    array library of the identity blocks; the arrays here are NumPy's. *)
Definition matrix c (wire_order : option (list wire)) : result (ndarray C) :=
  base_matrix ← or_raise (op_matrix (base c)) MatrixUndefinedError;
  let num_target_states := 2 ^ len (target_wires c) in
  let num_control_states := 2 ^ len (control_wires c) in
  let total_matrix_size := num_control_states * num_target_states in
  let padding_left := _control_int c * num_target_states in
  let padding_right := total_matrix_size - padding_left - num_target_states in
  left_pad ← cast_like_1j <$> eye padding_left;
  right_pad ← cast_like_1j <$> eye padding_right;
  let canonical_matrix := block_diag [left_pad; base_matrix; right_pad] in
  match wire_order with
  | None => mret canonical_matrix
  | Some wire_order =>
      given_wires ← Wires_new wire_order;
      if decide (wires c = given_wires) then mret canonical_matrix
      else
        let active_wires := Wires_add (control_wires c) (target_wires c) in
        expand_matrix canonical_matrix active_wires wire_order
  end.

(** [Controlled.sparse_matrix] *)
Definition sparse_matrix c (wire_order : option Wires) (format : string)
  : result (spmatrix C) :=
  match wire_order with
  | Some _ =>
      Raise (mk_exn NotImplementedError
               "wire_order argument is not yet implemented." None)
  | None =>
      target_mat ←
        match op_sparse_matrix (base c) with
        | Some t => Ok t
        | None =>
            match op_matrix (base c) with
            | Some a => Ok (lil_matrix a)
            | None =>
                Raise (mk_exn SparseMatrixUndefinedError ""
                         (Some MatrixUndefinedError))
            end
        end;
      let num_target_states := 2 ^ len (target_wires c) in
      let num_control_states := 2 ^ len (control_wires c) in
      let total_states := num_target_states * num_control_states in
      let start_ind := _control_int c * num_target_states in
      let end_ind := start_ind + num_target_states in
      let m := sparse_eye total_states "lil" (sp_dtype target_mat) in
      m ← sp_set_block m start_ind end_ind target_mat;
      mret (asformat m format)
  end.

(** [Controlled.eigvals] *)
Definition eigvals c : result (list C) :=
  base_eigvals ← or_raise (op_eigvals (base c)) EigvalsUndefinedError;
  let num_target_wires := len (target_wires c) in
  let num_control_wires := len (control_wires c) in
  let total := 2 ^ (num_target_wires + num_control_wires) in
  ones ← ones (total - len base_eigvals);
  mret (ones ++ base_eigvals).

(** [qml.PauliX(w)], which queues itself *)
Definition new_PauliX (w : wire) : M O (gate O) :=
  emit (Append (PauliX w));; mret (PauliX w).

(** a list comprehension whose element expression has effects *)
Fixpoint comprehension {A B} (f : A -> M O B) (l : list A) : M O (list B) :=
  match l with
  | [] => mret []
  | x :: l => y ← f x; ys ← comprehension f l; mret (y :: ys)
  end.

(** Modelled from the spec: [Operator.decomposition] is defined in
    [pennylane/operation.py]; the generic behavior "may be undefined,
    producing DecompositionUndefinedError". *)
Definition super_decomposition c : M O (list (gate O)) :=
  lift (Raise (mk_exn DecompositionUndefinedError "" None)).

(** [Controlled.decomposition] *)
Definition decomposition c : M O (list (gate O)) :=
  if negb (forallb truthy (control_values c)) then
    d ← comprehension (fun p => new_PauliX p.1)
          (filter (fun p => negb (truthy p.2))
                  (zip (control_wires c) (control_values c)));
    inner ← __init__ (base c) (control_wires c) None (Some (work_wires c))
               true None;
    let d := d ++ [ControlledGate inner] in
    d' ← comprehension (fun p => new_PauliX p.1)
           (filter (fun p => negb (truthy p.2))
                   (zip (control_wires c) (control_values c)));
    mret (d ++ d')
  else super_decomposition c.

(** [Controlled.adjoint] *)
Definition adjoint c : M O (Controlled O) :=
  base_adjoint ← lift (or_raise (op_adjoint (base c)) AdjointUndefinedError);
  __init__ base_adjoint (control_wires c)
    (Some (CVSeq (control_values c))) (Some (work_wires c)) true None.

(** [Controlled.pow] *)
Definition pow c (z : C) : M O (list (Controlled O)) :=
  base_pow ← lift (or_raise (op_pow (base c) z) PowUndefinedError);
  comprehension
    (fun op => __init__ op (control_wires c)
                 (Some (CVSeq (control_values c))) (Some (work_wires c))
                 true None)
    base_pow.

(** *** Members of the [ControlledOperation] mixin

    These exist on the instances whose type has the mixin among its
    parents, see [has_ControlledOperation]. *)

(** the getter of the [_inverse] property *)
Definition _inverse c : bool := false.

(** the setter of the [_inverse] property *)
Definition set__inverse c (boolean : bool) : Controlled O :=
  let base' := op_set_inverse (base c) boolean in
  mk_Controlled (type_of c) base' (control_wires c) (control_values c)
    (work_wires c) ("C" +:+ op_name base') (_id c).

(** [ControlledOperation.inv] *)
Definition inv c : Controlled O :=
  let base' := op_inv (base c) in
  mk_Controlled (type_of c) base' (control_wires c) (control_values c)
    (work_wires c) ("C" +:+ op_name base') (_id c).

(** [ControlledOperation.name] *)
Definition name c : string := _name c.

(** [ControlledOperation.parameter_frequencies] *)
Definition parameter_frequencies c : result (list (list C)) :=
  if op_num_params (base c) =? 1 then
    base_gen ←
      match op_generator (base c) with
      | Some g => Ok g
      | None =>
          Raise (mk_exn ParameterFrequenciesUndefinedError
                   ("Operation " +:+ op_name (base c)
                    +:+ " does not have parameter frequencies defined.")
                   (Some GeneratorUndefinedError))
      end;
    let base_gen_eigvals := gen_eigvals base_gen in
    let gen_eigvals := base_gen_eigvals ++ [czero] in
    let processed_gen_eigvals := round8 <$> gen_eigvals in
    mret [eigvals_to_frequencies processed_gen_eigvals]
  else
    Raise (mk_exn ParameterFrequenciesUndefinedError
             ("Operation " +:+ name c
              +:+ " does not have parameter frequencies defined, "
              +:+ "and parameter frequencies can not be computed via generator for more than one parameter.")
             None).
End Methods.

(** ** Further members of [Controlled] *)

(** What the members below write to the base operator, besides what
    [Operator] reads from it. *)
Class MutableOperator (C O : Type) := {
  (** [op._wires = new_wires] *)
  op_set_wires : O -> Wires -> O;
  (** [op.data] *)
  op_data : O -> list C;
  (** [op.data = new_data] *)
  op_set_data : O -> list C -> O
}.

(** [l[lo:hi]] for [0 <= lo <= hi] *)
Definition slice {A} (l : list A) (lo hi : Z) : list A :=
  take (Z.to_nat (hi - lo)) (drop (Z.to_nat lo) l).

(** [l[lo:]] for [0 <= lo] *)
Definition slice_from {A} (l : list A) (lo : Z) : list A :=
  drop (Z.to_nat lo) l.

Section Further_members.
Context {C G O : Type} `{!Scalar C} `{!Operator C G O} `{!MutableOperator C O}.
Implicit Types c : Controlled O.

(** the getter of [Controlled.data] *)
Definition data c : list C := op_data (base c).

(** the setter of [Controlled.data] *)
Definition set_data c (new_data : list C) : Controlled O :=
  mk_Controlled (type_of c) (op_set_data (base c) new_data) (control_wires c)
    (control_values c) (work_wires c) (_name c) (_id c).

(** the getter of [Controlled._wires] *)
Definition _wires c : Wires := wires c.

(** the setter of [Controlled._wires], on a [Wires] argument *)
Definition set__wires c (new_wires : Wires) : result (Controlled O) :=
  let num_control := len (control_wires c) in
  let num_base := len (op_wires (base c)) in
  let num_control_and_base := num_control + num_base in
  assert_ (num_control_and_base <=? len new_wires)
    (_name c +:+ " needs at least " +:+ pretty num_control_and_base
     +:+ " wires." +:+ " " +:+ pretty (len new_wires) +:+ " provided.");;
  let control_wires' := slice new_wires 0 num_control in
  let base' :=
    op_set_wires (base c) (slice new_wires num_control num_control_and_base) in
  let work_wires' :=
    if len new_wires >? num_control_and_base
    then slice_from new_wires num_control_and_base
    else [] in
  mret (mk_Controlled (type_of c) base' control_wires' (control_values c)
          work_wires' (_name c) (_id c)).

(** [Controlled.num_wires] *)
Definition num_wires c : Z := len (wires c).
End Further_members.

(** *** Objects and references

    [__copy__] and the [data] setter are about which objects two instances
    share. Here the base operators live in a store and an instance holds
    the location of its base. *)

Section References.
Context {C G O : Type} `{!Scalar C} `{!Operator C G O} `{!MutableOperator C O}.

(** An instance as Python holds it: [_hyperparameters["base"]] is a
    reference. *)
Record object := mk_object {
  ob_type : variant;
  ob_base : nat;
  ob_control_wires : Wires;
  ob_control_values : list pyval;
  ob_work_wires : Wires;
  ob_name : string;
  ob_id : option string
}.

(** The instance that an object denotes in a store. *)
Definition deref (σ : gmap nat O) (o : object) : option (Controlled O) :=
  b ← σ !! ob_base o;
  Some (mk_Controlled (ob_type o) b (ob_control_wires o) (ob_control_values o)
          (ob_work_wires o) (ob_name o) (ob_id o)).

(** Modelled from the spec: [copy(op)] of an operator is defined in
    [pennylane/operation.py]; the base is "independently copied", so the
    copy is a new object with the value of the old one. *)
Definition copy_operator (σ : gmap nat O) (l : nat) : option (nat * gmap nat O) :=
  b ← σ !! l;
  let l' := fresh (dom σ) in
  Some (l', <[l' := b]> σ).

(** [Controlled.__copy__]: every attribute is taken over, the
    hyperparameters are copied, and their base is replaced by a copy. *)
Definition __copy__ (σ : gmap nat O) (self : object)
  : option (object * gmap nat O) :=
  '(base', σ') ← copy_operator σ (ob_base self);
  Some (mk_object (ob_type self) base' (ob_control_wires self)
          (ob_control_values self) (ob_work_wires self) (ob_name self)
          (ob_id self), σ').

(** the setter of [Controlled.data], on the store: [self.base.data = new_data] *)
Definition assign_data (σ : gmap nat O) (self : object) (new_data : list C)
  : gmap nat O :=
  alter (fun b => op_set_data b new_data) (ob_base self) σ.
End References.

(** ** A concrete backend and concrete operators

    Exact integer scalars and operators given by the values of their
    members, for worked examples. *)

Fixpoint combinations2 {A} (l : list A) : list (A * A) :=
  match l with
  | [] => []
  | x :: l => ((fun y => (x, y)) <$> l) ++ combinations2 l
  end.

Definition Z_eigvals_to_frequencies (ev : list Z) : list Z :=
  let unique_eigvals := merge_sort Z.le (remove_dups ev) in
  remove_dups ((fun p => p.2 - p.1) <$> combinations2 unique_eigvals).

(** [wire_order.index(w)] *)
Definition index_of (w : wire) (l : Wires) : option nat :=
  fst <$> list_find (fun x => x = w) l.

(** The value of the wire at position [p] in the basis state [i] of [m]
    wires, the first wire being the most significant bit. *)
Definition state_bit (m p i : nat) : bool := Nat.testbit i (m - 1 - p).

(** The basis state of the wires at positions [pos] in the basis state [i]. *)
Definition sub_index (m : nat) (pos : list nat) (i : nat) : nat :=
  foldl (fun acc p => (2 * acc + (if state_bit m p i then 1 else 0))%nat)
    0%nat pos.

(** Modelled from the spec: [operation.expand_matrix] is defined in
    [pennylane/operation.py]; it is to "re-expand/permute the canonical
    matrix into that ordering", and "wires not in control∪target participate as
    additional identity dimensions". It raises [WireError] when
    [wire_order] repeats a label or lacks one of [wires]. *)
Definition Z_expand_matrix (mat : ndarray Z) (wires : Wires)
    (wire_order : list wire) : result (ndarray Z) :=
  if decide (wire_order = wires) then Ok mat
  else
    wire_order ← Wires_new wire_order;
    match mapM (fun w => index_of w wire_order) wires with
    | None => Raise (mk_exn WireError "Wire not found" None)
    | Some op_wire_pos =>
        let m := length wire_order in
        let unused_idxs := filter (fun p => p ∉ op_wire_pos) (seq 0 m) in
        let entry i j :=
          if bool_decide
               (Forall (fun p => state_bit m p i = state_bit m p j) unused_idxs)
          then default 0 (nd_get mat (sub_index m op_wire_pos i)
                                     (sub_index m op_wire_pos j))
          else 0 in
        Ok (mk_ndarray (nd_dtype mat)
              ((fun i => entry i <$> seq 0 (2 ^ m)%nat) <$> seq 0 (2 ^ m)%nat))
    end.

(** Integer scalars; rounding is the identity on them. *)
#[global, refine] Instance Z_scalar : Scalar Z := {|
  czero := 0;
  cone := 1;
  is_nonzero := fun x => negb (x =? 0);
  is_nonzero_false := _;
  round8 := fun x => x;
  eigvals_to_frequencies := Z_eigvals_to_frequencies;
  expand_matrix := Z_expand_matrix
|}.
Proof. intros x Hx. apply negb_false_iff in Hx. lia. Defined.

Record simple_op := mk_simple_op {
  so_name : string;
  so_wires : Wires;
  so_is_operation : bool;
  so_is_observable : bool;
  so_num_params : Z;
  so_matrix : option (ndarray Z);
  so_sparse_matrix : option (spmatrix Z);
  so_eigvals : option (list Z);
  (** the spectrum of the generator, when there is one *)
  so_generator : option (list Z);
  so_has_adjoint : bool;
  so_inverse : bool
}.

Definition so_with_inverse (o : simple_op) (b : bool) : simple_op :=
  mk_simple_op (so_name o) (so_wires o) (so_is_operation o)
    (so_is_observable o) (so_num_params o) (so_matrix o)
    (so_sparse_matrix o) (so_eigvals o) (so_generator o) (so_has_adjoint o) b.

#[global] Instance simple_operator : Operator Z (list Z) simple_op := {|
  op_is_operation := so_is_operation;
  op_is_observable := so_is_observable;
  op_name := fun o => if so_inverse o then so_name o +:+ ".inv" else so_name o;
  op_wires := so_wires;
  op_num_params := so_num_params;
  op_matrix := so_matrix;
  op_sparse_matrix := so_sparse_matrix;
  op_eigvals := so_eigvals;
  op_generator := so_generator;
  gen_eigvals := fun g => g;
  op_adjoint := fun o => if so_has_adjoint o then Some o else None;
  op_pow := fun o z => Some [o];
  op_set_inverse := so_with_inverse;
  op_inv := fun o => so_with_inverse o (negb (so_inverse o))
|}.

(** [qml.PauliX(wires=w)] as a base operator. *)
Definition pauli_x (w : Z) : simple_op :=
  mk_simple_op "PauliX" [WInt w] true true 0
    (Some (mk_ndarray int64 [[0; 1]; [1; 0]]))
    (Some (mk_spmatrix 2 2 "csr" int64 {[ (0, 1)%nat := 1; (1, 0)%nat := 1 ]}))
    (Some [1; -1]) None true false.

(** [qml.PhaseShift(phi, wires=w)]: one parameter, generated by the
    projector on [1]. Its matrix is not integral and is left out. *)
Definition phase_shift (w : Z) : simple_op :=
  mk_simple_op "PhaseShift" [WInt w] true false 1 None None None
    (Some [0; 1]) true false.

(** An operation without parameters that declares a generator. *)
Definition flagged_op (w : Z) : simple_op :=
  mk_simple_op "Flagged" [WInt w] true false 0 None None None
    (Some [0; 1]) true false.

(** An operator that only has a dense matrix. *)
Definition dense_only (w : Z) : simple_op :=
  mk_simple_op "Dense" [WInt w] false false 0
    (Some (mk_ndarray int64 [[0; 1]; [1; 0]])) None None None false false.

(** An operator without any matrix representation. *)
Definition opaque_op (w : Z) : simple_op :=
  mk_simple_op "Opaque" [WInt w] false false 0 None None None None false false.

(** the call [Controlled(qml.PauliX(1), 0, [True], do_queue=False)] *)
Definition cnot : M simple_op (Controlled simple_op) :=
  __init__ (pauli_x 1) [WInt 0] (Some (CVSeq [PyTrue])) None false None.

(** the instance that this call returns *)
Definition cnot_op : Controlled simple_op :=
  mk_Controlled OperationObservable (pauli_x 1) [WInt 0] [PyTrue] []
    "CPauliX" None.

(** [Controlled(PauliX(2), [0, 1], control_values=[True, False])] *)
Definition c01_op : Controlled simple_op :=
  mk_Controlled OperationObservable (pauli_x 2) [WInt 0; WInt 1]
    [PyTrue; PyFalse] [] "CPauliX" None.

(** An operator with parameters: a [simple_op] and its [data]. *)
Record param_op := mk_param_op {
  po_op : simple_op;
  po_data : list Z
}.

Definition so_with_wires (o : simple_op) (w : Wires) : simple_op :=
  mk_simple_op (so_name o) w (so_is_operation o) (so_is_observable o)
    (so_num_params o) (so_matrix o) (so_sparse_matrix o) (so_eigvals o)
    (so_generator o) (so_has_adjoint o) (so_inverse o).

#[global] Instance param_operator : Operator Z (list Z) param_op := {|
  op_is_operation := fun p => op_is_operation (po_op p);
  op_is_observable := fun p => op_is_observable (po_op p);
  op_name := fun p => op_name (po_op p);
  op_wires := fun p => op_wires (po_op p);
  op_num_params := fun p => op_num_params (po_op p);
  op_matrix := fun p => op_matrix (po_op p);
  op_sparse_matrix := fun p => op_sparse_matrix (po_op p);
  op_eigvals := fun p => op_eigvals (po_op p);
  op_generator := fun p => op_generator (po_op p);
  gen_eigvals := fun g => g;
  op_adjoint := fun p =>
    match op_adjoint (po_op p) with
    | Some o => Some (mk_param_op o (po_data p))
    | None => None
    end;
  op_pow := fun p z =>
    match op_pow (po_op p) z with
    | Some os => Some ((fun o => mk_param_op o (po_data p)) <$> os)
    | None => None
    end;
  op_set_inverse := fun p b => mk_param_op (op_set_inverse (po_op p) b) (po_data p);
  op_inv := fun p => mk_param_op (op_inv (po_op p)) (po_data p)
|}.

#[global] Instance param_mutable : MutableOperator Z param_op := {|
  op_set_wires := fun p w => mk_param_op (so_with_wires (po_op p) w) (po_data p);
  op_data := po_data;
  op_set_data := fun p d => mk_param_op (po_op p) d
|}.

(** [qml.PhaseShift(5, wires=2)] with its parameter *)
Definition phase_shift_5 : param_op := mk_param_op (phase_shift 2) [5].

(** [Controlled(qml.PhaseShift(5, wires=2), [0, 1], work_wires=[3])] *)
Definition cphase_op : Controlled param_op :=
  mk_Controlled OperationOnly phase_shift_5 [WInt 0; WInt 1] [PyTrue; PyTrue]
    [WInt 3] "CPhaseShift" None.

(** ** Notions used to state the properties *)

(** The unsigned integer that a bit-string denotes, read from its most
    significant bit. *)
Definition msb_first (bits : list bool) : Z :=
  fold_left (fun acc (b : bool) => 2 * acc + (if b then 1 else 0)) bits 0.

(** The least-significant-first reading, which is what the comprehension
    of [_control_int] computes on the reversed sequence. *)
Fixpoint lsb_first (bits : list bool) : Z :=
  match bits with
  | [] => 0
  | b :: bits => (if b then 1 else 0) + 2 * lsb_first bits
  end.

Section Notions.
Context {C G O : Type} `{!Scalar C} `{!Operator C G O}.

(** The control values that a constructor call works with, before any
    check. *)
Definition given_control_values (cw : Wires) (cv : option control_values_arg)
  : list pyval :=
  match cv with
  | None => replicate (length cw) PyTrue
  | Some (CVStr s) =>
      (fun x => PyBool (Ascii.eqb x "1"%char)) <$> String.list_ascii_of_string s
  | Some (CVSeq vs) => vs
  end.

(** [c] is an instance that a constructor call returned. *)
Definition constructed (c : Controlled O) : Prop :=
  exists b cw cv ww do_queue id, (__init__ b cw cv ww do_queue id).2 = Ok c.

(** The control wires whose control value is false, in order. *)
Fixpoint false_control_wires (cw : Wires) (cv : list pyval) : Wires :=
  match cw, cv with
  | w :: cw, v :: cv =>
      if truthy v then false_control_wires cw cv
      else w :: false_control_wires cw cv
  | _, _ => []
  end.

(** The block structure of a controlled matrix: entry [(i, j)] of the
    square matrix of size [total] that holds [block] (of size [size]) at
    offset [start] on the diagonal and is the identity outside of it. *)
Definition embedded_entry (block : nat -> nat -> option C)
    (start size : nat) (i j : nat) : option C :=
  if decide (start <= i < start + size ∧ start <= j < start + size)%nat
  then block (i - start)%nat (j - start)%nat
  else Some (if decide (i = j) then cone else czero).

(** The three assertions of the constructor, on the control values that
    the call works with. *)
Definition init_checks (b : O) (cw : Wires) (cv : option control_values_arg)
  : bool :=
  bool_decide (length (given_control_values cw cv) = length cw)
  && issubset_False_True (given_control_values cw cv)
  && bool_decide (length (shared_wires (op_wires b) cw) = 0%nat).

(** The instance that a successful constructor call returns. *)
Definition init_value (b : O) (cw : Wires) (cv : option control_values_arg)
    (ww : option Wires) (id : option string) : Controlled O :=
  mk_Controlled (__new__ b) b cw (given_control_values cw cv)
    (default [] ww) ("C" +:+ op_name b) id.
End Notions.

Section Notions_more.
Context {C G O : Type} `{!Scalar C} `{!Operator C G O}.

(** The operators that a log appends to the queue, in order. *)
Definition appended (log : list (event O)) : list (gate O) :=
  omap (fun e => match e with Append g => Some g | _ => None end) log.

(** The warnings of a log, in order. *)
Definition warnings (log : list (event O)) : list (string * string) :=
  omap (fun e => match e with Warn cat msg => Some (cat, msg) | _ => None end)
       log.
End Notions_more.

(** [np.diag(a)]: the diagonal of a two-dimensional array *)
Definition nd_diagonal {C} `{!Scalar C} (a : ndarray C) : list C :=
  imap (fun i r => default czero (r !! i)) (nd_rows a).

(** * Properties *)

Section Control_int.
Context {C G O : Type} `{!Scalar C} `{!Operator C G O}.

Lemma sum_from (l : list Z) (a : Z) : fold_left Z.add l a = a + sum l.
Proof.
  unfold sum. revert a. induction l as [|x l IH]; intros a; [simpl; lia|].
  cbn [fold_left]. rewrite (IH (a + x)), (IH (0 + x)). lia.
Qed.

Lemma sum_cons (x : Z) (l : list Z) : sum (x :: l) = x + sum l.
Proof. unfold sum at 1. simpl. apply sum_from. Qed.

Lemma msb_first_snoc (bits : list bool) (b : bool) :
  msb_first (bits ++ [b]) = 2 * msb_first bits + (if b then 1 else 0).
Proof. unfold msb_first. by rewrite fold_left_app. Qed.

Lemma msb_first_lsb_first (bits : list bool) :
  msb_first bits = lsb_first (reverse bits).
Proof.
  induction bits as [|b bits IH] using rev_ind; [done|].
  rewrite msb_first_snoc, reverse_snoc. simpl. lia.
Qed.

Lemma weighted_sum (k : nat) (l : list pyval) :
  sum ((fun p : Z * pyval => 2 ^ p.1)
         <$> filter (fun p : Z * pyval => truthy p.2)
               (imap (fun i x => (Z.of_nat (k + i), x)) l))
  = 2 ^ Z.of_nat k * lsb_first (truthy <$> l).
Proof.
  revert k. induction l as [|v l IH]; intros k.
  - simpl. unfold sum. simpl. lia.
  - rewrite imap_cons, filter_cons, (fmap_cons truthy). cbn [lsb_first fst snd].
    assert (Hext : imap ((fun i x => (Z.of_nat (k + i), x)) ∘ S) l
                   = imap (fun i x => (Z.of_nat (S k + i), x)) l).
    { apply imap_ext. intros i x _. simpl. f_equal. lia. }
    rewrite Hext.
    assert (Hpow : 2 ^ Z.of_nat (S k) = 2 * 2 ^ Z.of_nat k).
    { rewrite Nat2Z.inj_succ, Z.pow_succ_r; lia. }
    destruct (decide (truthy v)) as [Hv|Hv].
    + rewrite fmap_cons, sum_cons, IH, Hpow. cbn [fst].
      apply Is_true_true in Hv. rewrite Hv, Nat.add_0_r. lia.
    + rewrite IH, Hpow. apply Is_true_false in Hv. rewrite Hv. lia.
Qed.

Lemma control_int_value (c : Controlled O) :
_control_int c = msb_first (truthy <$> control_values c).
Proof.
  unfold _control_int, enumerate.
  rewrite msb_first_lsb_first, <- fmap_reverse.
  pose proof (weighted_sum 0 (reverse (control_values c))) as Hw.
  simpl in Hw. rewrite Hw. lia.
Qed.

(** C4: for every sequence of control values, [_control_int] is the
    unsigned integer that the sequence denotes when it is read as a
    bit-string whose most significant bit is the first control wire;
    [True, False] gives 2, [True, True] gives 3 and [False, False]
    gives 0. *)
Theorem control_int_msb_first :
  (forall c : Controlled O,
     _control_int c = msb_first (truthy <$> control_values c))
  /\ (forall t (b : O) cw ww n id,
        _control_int (mk_Controlled t b cw [PyTrue; PyFalse] ww n id) = 2
        /\ _control_int (mk_Controlled t b cw [PyTrue; PyTrue] ww n id) = 3
        /\ _control_int (mk_Controlled t b cw [PyFalse; PyFalse] ww n id) = 0).
Proof.
  split; [apply control_int_value | intros; by vm_compute].
Qed.
End Control_int.

Ltac run_init :=
  unfold __init__, queue, init_checks, init_value, given_control_values,
    Wires_new, mbind, mret, M_mbind, M_mret, M_bind, M_ret, lift, emit,
    assert_;
  cbn [fst snd app].

Section Construction.
Context {C G O : Type} `{!Scalar C} `{!Operator C G O}.

Lemma issubset_replicate_True (n : nat) :
  issubset_False_True (replicate n PyTrue) = true.
Proof. induction n; simpl; auto. Qed.



(** The constructor, statement by statement: what it logs and what it
    returns or raises. *)
Lemma init_table b cw cv ww do_queue id :
  let warning : list (event O) :=
    match cv with
    | Some (CVStr _) =>
        [Warn "UserWarning"
           "Specifying control values as a string is deprecated. Please use Sequence[Bool]"]
    | _ => []
    end in
  let self := init_value b cw cv ww id in
  __init__ b cw cv ww do_queue id =
  if negb (bool_decide (NoDup cw)) then
    ([], Raise (mk_exn WireError "Wires must be unique" None))
  else if negb (bool_decide (length (given_control_values cw cv) = length cw)) then
    (warning,
     Raise (mk_exn AssertionError
              "control_values should be the same length as control_wires" None))
  else if negb (issubset_False_True (given_control_values cw cv)) then
    (warning,
     Raise (mk_exn AssertionError
              "control_values can only take on True or False" None))
  else if negb (bool_decide (length (shared_wires (op_wires b) cw) = 0%nat)) then
    (warning,
     Raise (mk_exn AssertionError
              "The control wires must be different from the base operation wires."
              None))
  else if negb (bool_decide (NoDup (default [] ww))) then
    (warning, Raise (mk_exn WireError "Wires must be unique" None))
  else
    (warning ++ (if do_queue
                 then [SafeUpdateInfo b self; Append (ControlledGate self)]
                 else []),
     Ok self).
Proof.
  intros warning self. unfold warning, self. clear warning self. run_init.
  destruct (bool_decide (NoDup cw)); cbn [negb fst snd app]; [|done].
  assert (Hnil : bool_decide (NoDup (@nil wire)) = true)
    by (apply bool_decide_eq_true_2; constructor).
  destruct cv as [[s|vs]|]; cbn [fst snd app].
  - destruct (bool_decide (length _ = length cw)); cbn [negb fst snd app];
      [|done].
    destruct (issubset_False_True _); cbn [negb fst snd app]; [|done].
    destruct (bool_decide (length (shared_wires _ _) = 0%nat));
      cbn [negb fst snd app]; [|done].
    destruct ww as [ww|]; cbv [from_option Datatypes.id]; rewrite ?Hnil;
      [destruct (bool_decide (NoDup ww))|]; cbn [negb fst snd app];
      destruct do_queue; reflexivity.
  - destruct (bool_decide (length _ = length cw)); cbn [negb fst snd app];
      [|done].
    destruct (issubset_False_True _); cbn [negb fst snd app]; [|done].
    destruct (bool_decide (length (shared_wires _ _) = 0%nat));
      cbn [negb fst snd app]; [|done].
    destruct ww as [ww|]; cbv [from_option Datatypes.id]; rewrite ?Hnil;
      [destruct (bool_decide (NoDup ww))|]; cbn [negb fst snd app];
      destruct do_queue; reflexivity.
  - rewrite issubset_replicate_True, length_replicate.
    rewrite (bool_decide_eq_true_2 (length cw = length cw)) by done.
    cbn [negb].
    destruct (bool_decide (length (shared_wires _ _) = 0%nat));
      cbn [negb fst snd app]; [|done].
    destruct ww as [ww|]; cbv [from_option Datatypes.id]; rewrite ?Hnil;
      [destruct (bool_decide (NoDup ww))|]; cbn [negb fst snd app];
      destruct do_queue; reflexivity.
Qed.

Lemma init_ok b cw cv ww do_queue id :
  NoDup cw -> NoDup (default [] ww) ->
  init_checks b cw cv = true ->
  (__init__ b cw cv ww do_queue id).2 = Ok (init_value b cw cv ww id).
Proof.
  intros Hcw Hww Hc. unfold init_checks in Hc.
  apply andb_true_iff in Hc as [Hc H3]. apply andb_true_iff in Hc as [H1 H2].
  rewrite init_table, H1, H2, H3.
  by rewrite !bool_decide_eq_true_2 by done.
Qed.

(** A constructor call fails on one of its assertions or on a wire
    conversion. *)
Lemma init_raise b cw cv ww do_queue id :
  is_ok (__init__ b cw cv ww do_queue id).2 = false ->
  exists e, (__init__ b cw cv ww do_queue id).2 = Raise e
            /\ (exn_class e = AssertionError \/ exn_class e = WireError).
Proof.
  rewrite init_table.
  repeat (match goal with
          | |- context [negb ?x] => destruct x; cbn [negb]
          end); cbn [snd is_ok]; try discriminate; intros _; eauto.
Qed.

Lemma init_inv b cw cv ww do_queue id c :
  (__init__ b cw cv ww do_queue id).2 = Ok c ->
  init_checks b cw cv = true /\ c = init_value b cw cv ww id.
Proof.
  rewrite init_table. unfold init_checks.
  repeat (match goal with
          | |- context [negb ?x] => destruct x; cbn [negb]
          end); cbn [snd andb]; try discriminate.
  intros Hc. by inversion Hc.
Qed.

(** The wires of an instance that a constructor call returned hold no
    repeated label. *)
Lemma init_NoDup b cw cv ww do_queue id c :
  (__init__ b cw cv ww do_queue id).2 = Ok c ->
  NoDup cw /\ NoDup (default [] ww).
Proof.
  rewrite init_table.
  destruct (bool_decide (NoDup cw)) eqn:E1; cbn [negb]; [|discriminate].
  destruct (bool_decide (NoDup (default [] ww))) eqn:E2; cbn [negb].
  - intros _. by apply bool_decide_eq_true in E1, E2.
  - repeat (match goal with
            | |- context [negb ?x] => destruct x; cbn [negb]
            end); discriminate.
Qed.

Lemma shared_wires_nil (a b : Wires) :
  length (shared_wires a b) = 0%nat <-> (forall w, w ∈ a -> w ∉ b).
Proof.
  unfold shared_wires. rewrite length_zero_iff_nil. split.
  - intros Hnil w Ha Hb.
    assert (Hin : w ∈ filter (fun w => w ∈ b) a) by (apply list_elem_of_filter; done).
    rewrite Hnil in Hin. by apply not_elem_of_nil in Hin.
  - intros Hd. induction a as [|x a IH]; [done|].
    rewrite filter_cons. destruct (decide (x ∈ b)) as [Hx|Hx].
    + exfalso. apply (Hd x); [apply list_elem_of_here | done].
    + apply IH. intros w Hw. apply Hd. by apply list_elem_of_further.
Qed.

Lemma init_checks_true b cw cv :
  init_checks b cw cv = true <->
  length (given_control_values cw cv) = length cw
  /\ Forall (fun v => in_False_True v = true) (given_control_values cw cv)
  /\ (forall w, w ∈ op_wires b -> w ∉ cw).
Proof.
  unfold init_checks, issubset_False_True.
  rewrite !andb_true_iff, !bool_decide_eq_true, forallb_forall,
    shared_wires_nil, List.Forall_forall.
  tauto.
Qed.

(** When a constructor call succeeds. *)
Lemma init_is_ok b cw cv ww do_queue id :
  is_ok (__init__ b cw cv ww do_queue id).2
  = bool_decide (NoDup cw) && init_checks b cw cv
    && bool_decide (NoDup (default [] ww)).
Proof.
  rewrite init_table. unfold init_checks.
  repeat (match goal with
          | |- context [negb ?x] => destruct x; cbn [negb]
          end); reflexivity.
Qed.

(** What every constructed instance satisfies. *)
Lemma constructed_inv (c : Controlled O) :
  constructed c ->
  length (control_values c) = length (control_wires c)
  /\ issubset_False_True (control_values c) = true
  /\ length (shared_wires (op_wires (base c)) (control_wires c)) = 0%nat
  /\ _name c = "C" +:+ op_name (base c)
  /\ type_of c = __new__ (base c).
Proof.
  intros (b & cw & cv & ww & dq & id & Hc).
  apply init_inv in Hc as [Hchk ->]. unfold init_checks in Hchk.
  apply andb_true_iff in Hchk as [Hchk H3].
  apply andb_true_iff in Hchk as [H1 H2].
  apply bool_decide_eq_true in H1, H3. by cbn.
Qed.

Lemma constructed_NoDup (c : Controlled O) :
  constructed c -> NoDup (control_wires c) /\ NoDup (work_wires c).
Proof.
  intros (b & cw & cv & ww & dq & id & Hc).
  destruct (init_NoDup _ _ _ _ _ _ _ Hc) as [Hcw Hww].
  apply init_inv in Hc as [_ ->]. by cbn.
Qed.

(** C3, as the constructor has it: for every construction input, building
    a Controlled fails unless the control values are as many as the
    control wires, every control value is a member of [{False, True}],
    and no base wire is a control wire. The work wires are not checked
    against the control wires or the base wires: for work wires without a
    repeated label, whether the construction fails is the same as
    without work wires. *)
Theorem init_fails_unless (b : O) (cw : list wire)
    (cv : option control_values_arg) (ww : option (list wire))
    (do_queue : bool) (id : option string) :
  (is_ok (__init__ b cw cv ww do_queue id).2 = true ->
     length (given_control_values cw cv) = length cw
     /\ Forall (fun v => in_False_True v = true) (given_control_values cw cv)
     /\ (forall w, w ∈ op_wires b -> w ∉ cw))
  /\ (NoDup (default [] ww) ->
      is_ok (__init__ b cw cv ww do_queue id).2
      = is_ok (__init__ b cw cv None do_queue id).2).
Proof.
  rewrite <- init_checks_true, !init_is_ok. split.
  - intros Hok. apply andb_true_iff in Hok as [Hok _].
    by apply andb_true_iff in Hok as [_ Hok].
  - intros Hww. rewrite (bool_decide_eq_true_2 _ Hww). cbn [from_option].
    by rewrite (bool_decide_eq_true_2 (NoDup []) NoDup_nil_2).
Qed.

End Construction.

(** C3 as it was claimed, refuted: a constructor call whose work wires
    contain the control wire and the base wire succeeds. *)
Lemma init_accepts_shared_work_wires :
  ~ (forall (b : simple_op) cw cv ww do_queue id,
       is_ok (__init__ b cw cv (Some ww) do_queue id).2 = true ->
       length (given_control_values cw cv) = length cw
       /\ Forall (fun v => exists x, v = PyBool x) (given_control_values cw cv)
       /\ (forall w, w ∈ op_wires b -> w ∉ cw)
       /\ (forall w, w ∈ ww -> w ∉ cw)
       /\ (forall w, w ∈ ww -> w ∉ op_wires b)).
Proof.
  intros H.
  destruct (H (pauli_x 1) [WInt 0] (Some (CVSeq [PyTrue])) [WInt 0; WInt 1]
              false None eq_refl) as (_ & _ & _ & Hcw & _).
  apply (Hcw (WInt 0)); apply list_elem_of_here.
Qed.

(** The amended C3 at [Controlled(PauliX(1), 0, [True], work_wires=[0, 1])]. *)
Lemma init_fails_unless_witness :
  is_ok (__init__ (pauli_x 1) [WInt 0] (Some (CVSeq [PyTrue]))
           (Some [WInt 0; WInt 1]) false None).2
  = is_ok (__init__ (pauli_x 1) [WInt 0] (Some (CVSeq [PyTrue]))
             None false None).2.
Proof.
  apply (proj2 (init_fails_unless (pauli_x 1) [WInt 0] (Some (CVSeq [PyTrue]))
                  (Some [WInt 0; WInt 1]) false None)).
  apply (bool_decide_unpack (NoDup [WInt 0; WInt 1])). exact I.
Defined.



Section Mixin.
Context {C G O : Type} `{!Scalar C} `{!Operator C G O}.

(** C10: on an instance whose type has the [ControlledOperation] mixin,
    [_inverse] reads as [False], also right after [_inverse] was assigned
    (to [True] or to anything) and right after [inv()]; the assignment and
    [inv()] act on the base operator, set the name to "C" followed by the
    name of the base, and leave the rest of the wrapper as it was. *)
Theorem inverse_always_false (c : Controlled O) :
  has_ControlledOperation (type_of c) = true ->
  _inverse c = false
  /\ _inverse (set__inverse c true) = false
  /\ _inverse (inv c) = false
  /\ (forall boolean,
        _inverse (set__inverse c boolean) = false
        /\ base (set__inverse c boolean) = op_set_inverse (base c) boolean
        /\ name (set__inverse c boolean)
           = "C" +:+ op_name (base (set__inverse c boolean))
        /\ set__inverse c boolean
           = mk_Controlled (type_of c) (op_set_inverse (base c) boolean)
               (control_wires c) (control_values c) (work_wires c)
               (name (set__inverse c boolean)) (_id c))
  /\ base (inv c) = op_inv (base c)
  /\ name (inv c) = "C" +:+ op_name (base (inv c))
  /\ inv c = mk_Controlled (type_of c) (op_inv (base c)) (control_wires c)
               (control_values c) (work_wires c) (name (inv c)) (_id c).
Proof. intros _. repeat split. Qed.

(** C8, as the property has it: on an instance whose type has the
    [ControlledOperation] mixin, [parameter_frequencies] raises
    [ParameterFrequenciesUndefinedError] exactly when the base does not
    have exactly one parameter (the error is then not chained) or has one
    parameter and no generator (the error is then chained from
    [GeneratorUndefinedError]); otherwise it returns the frequencies of
    the rounded eigenvalues of the base generator with a 0 appended. *)
Theorem parameter_frequencies_cases (c : Controlled O) :
  has_ControlledOperation (type_of c) = true ->
  ((exists e, parameter_frequencies c = Raise e
              /\ exn_class e = ParameterFrequenciesUndefinedError)
   <-> op_num_params (base c) <> 1 \/ op_generator (base c) = None)
  /\ (op_num_params (base c) <> 1 ->
      exists msg, parameter_frequencies c
                  = Raise (mk_exn ParameterFrequenciesUndefinedError msg None))
  /\ (op_num_params (base c) = 1 -> op_generator (base c) = None ->
      exists msg, parameter_frequencies c
                  = Raise (mk_exn ParameterFrequenciesUndefinedError msg
                             (Some GeneratorUndefinedError)))
  /\ (forall g, op_num_params (base c) = 1 -> op_generator (base c) = Some g ->
      parameter_frequencies c
      = Ok [eigvals_to_frequencies (round8 <$> (gen_eigvals g ++ [czero]))]).
Proof.
  intros _. unfold parameter_frequencies.
  destruct (Z.eqb_spec (op_num_params (base c)) 1) as [H1|H1].
  - destruct (op_generator (base c)) as [g|] eqn:Hg; cbn.
    + repeat split; try done.
      * intros (e & He & _). discriminate.
      * intros [?|?]; done.
      * intros g' _ [= <-]. done.
    + repeat split; try done; eauto.
  - repeat split; try done; eauto.
Qed.
End Mixin.

(** C10 at [Controlled(PauliX(1), 0)]. *)
Lemma inverse_always_false_witness :
  _inverse (set__inverse cnot_op true) = false
  /\ name (set__inverse cnot_op true) = "CPauliX.inv"
  /\ _inverse (inv cnot_op) = false.
Proof.
  pose proof (inverse_always_false cnot_op eq_refl) as (_ & H1 & H2 & H3 & _).
  destruct (H3 true) as (_ & _ & Hn & _).
  split; [exact H1|]. split; [exact Hn | exact H2].
Defined.

(** C8 as it was claimed, refuted on both of its parts. The controlled
    version of an operation without parameters that has a generator raises,
    although the base has neither more than one parameter nor an undefined
    generator. The controlled PauliX, whose base has no generator, raises
    an error that is not chained: the number of parameters is tested
    first. *)
Lemma parameter_frequencies_claim_fails :
  ~ (forall c : Controlled simple_op,
       has_ControlledOperation (type_of c) = true ->
       (exists e, parameter_frequencies c = Raise e
                  /\ exn_class e = ParameterFrequenciesUndefinedError)
       <-> 1 < op_num_params (base c) \/ op_generator (base c) = None)
  /\ ~ (forall c : Controlled simple_op,
          has_ControlledOperation (type_of c) = true ->
          op_generator (base c) = None ->
          exists msg, parameter_frequencies c
                      = Raise (mk_exn ParameterFrequenciesUndefinedError msg
                                 (Some GeneratorUndefinedError))).
Proof.
  split; intros H.
  - destruct (H (mk_Controlled OperationOnly (flagged_op 1) [WInt 0] [PyTrue]
                   [] "CFlagged" None) eq_refl) as [Hraise _].
    destruct Hraise as [Hlt|Hgen].
    + eexists. split; reflexivity.
    + cbn in Hlt. lia.
    + discriminate Hgen.
  - destruct (H cnot_op eq_refl eq_refl) as [msg Hmsg].
    vm_compute in Hmsg. discriminate Hmsg.
Qed.

(** The amended C8 at [Controlled(PhaseShift(phi, 1), 0)]. *)
Lemma parameter_frequencies_cases_witness :
  parameter_frequencies
    (mk_Controlled OperationOnly (phase_shift 1) [WInt 0] [PyTrue] []
       "CPhaseShift" None)
  = Ok [[1]].
Proof.
  pose proof (parameter_frequencies_cases
                (mk_Controlled OperationOnly (phase_shift 1) [WInt 0] [PyTrue]
                   [] "CPhaseShift" None) eq_refl) as (_ & _ & _ & H).
  exact (H [0; 1] eq_refl eq_refl).
Defined.

Section Eigvals.
Context {C G O : Type} `{!Scalar C} `{!Operator C G O}.

Lemma pow2_len_le {A B} (l : list A) (k : list B) :
  2 ^ len l <= 2 ^ (len l + len k).
Proof. unfold len. apply Z.pow_le_mono_r; lia. Qed.

(** C2: when the base has [2^t] eigenvalues, for [t] target wires and [c]
    control wires, [eigvals()] is these eigenvalues behind
    [2^(c+t) - 2^t] ones, whatever the control values are. *)
Theorem eigvals_prepends_ones (c : Controlled O) (base_eigvals : list C) :
  op_eigvals (base c) = Some base_eigvals ->
  len base_eigvals = 2 ^ len (target_wires c) ->
  eigvals c
  = Ok (replicate
          (Z.to_nat (2 ^ (len (control_wires c) + len (target_wires c))
                     - 2 ^ len (target_wires c)))
          cone
        ++ base_eigvals)
  /\ (forall c' : Controlled O,
        base c' = base c -> control_wires c' = control_wires c ->
        eigvals c' = eigvals c).
Proof.
  intros Hev Hlen. split.
  - unfold eigvals, ones. rewrite Hev. cbn. rewrite Hlen.
    pose proof (pow2_len_le (target_wires c) (control_wires c)) as Hle.
    rewrite (Z.add_comm (len (control_wires c))).
    destruct (Z.ltb_spec (2 ^ (len (target_wires c) + len (control_wires c))
                          - 2 ^ len (target_wires c)) 0) as [Hneg|_]; [lia|].
    reflexivity.
  - intros c' Hb Hw. unfold eigvals, target_wires. by rewrite Hb, Hw.
Qed.
End Eigvals.

(** C2 at [Controlled(PauliX(1), 0)]: the eigenvalues [1, -1] of PauliX
    become [1, 1, 1, -1]. *)
Lemma eigvals_prepends_ones_witness :
  eigvals cnot_op = Ok [1; 1; 1; -1]
  /\ eigvals (mk_Controlled OperationObservable (pauli_x 1) [WInt 0] [PyFalse]
                [] "CPauliX" None)
     = Ok [1; 1; 1; -1].
Proof.
  destruct (eigvals_prepends_ones cnot_op [1; -1]) as [H1 H2];
    [reflexivity | reflexivity |].
  split; [exact H1|].
  etransitivity; [apply H2; reflexivity | exact H1].
Defined.

Section Wrapping.
Context {C G O : Type} `{!Scalar C} `{!Operator C G O}.

Lemma M_bind_snd {A B} (m : M O A) (k : A -> M O B) :
  (m ≫= k).2 = match m.2 with Ok a => (k a).2 | Raise e => Raise e end.
Proof. unfold mbind, M_mbind, M_bind. by destruct m.2. Qed.

Lemma comprehension_ok {A B} (f : A -> M O B) (g : A -> B) (l : list A) :
  Forall (fun x => (f x).2 = Ok (g x)) l ->
  (comprehension f l).2 = Ok (g <$> l).
Proof.
  induction 1 as [|x l Hx _ IH]; [done|].
  cbn [comprehension]. rewrite M_bind_snd, Hx, M_bind_snd, IH. done.
Qed.

Lemma filter_zip_false_control_wires (cw : Wires) (cv : list pyval) :
  fst <$> filter (fun p : wire * pyval => negb (truthy p.2)) (zip cw cv)
  = false_control_wires cw cv.
Proof.
  revert cv. induction cw as [|w cw IH]; intros [|v cv]; try done.
  cbn [zip zip_with false_control_wires].
  destruct (truthy v) eqn:Hv.
  - rewrite filter_cons_False; [apply IH | cbn; rewrite Hv; cbn; tauto].
  - rewrite filter_cons_True; [cbn; by rewrite IH | cbn; rewrite Hv; cbn; tauto].
Qed.

Lemma length_false_control_wires (cw : Wires) (cv : list pyval) :
  length cv = length cw ->
  length (false_control_wires cw cv)
  = length (filter (fun v => negb (truthy v)) cv).
Proof.
  revert cv. induction cw as [|w cw IH]; intros [|v cv] Hlen; try done.
  cbn [false_control_wires].
  destruct (truthy v) eqn:Hv.
  - rewrite filter_cons_False; [apply IH; auto | rewrite Hv; cbn; tauto].
  - rewrite filter_cons_True; [cbn; rewrite IH; auto | rewrite Hv; cbn; tauto].
Qed.

Lemma elem_of_false_control_wires (cw : Wires) (cv : list pyval) (w : wire) :
  w ∈ false_control_wires cw cv <->
  exists (k : nat) v, cw !! k = Some w /\ cv !! k = Some v /\ truthy v = false.
Proof.
  revert cv. induction cw as [|x cw IH]; intros [|v cv]; cbn [false_control_wires].
  - split; [by intros ?%not_elem_of_nil | by intros (k & ? & ? & _)].
  - split; [by intros ?%not_elem_of_nil | by intros (k & ? & ? & _)].
  - split; [by intros ?%not_elem_of_nil | by intros (k & ? & _ & ? & _)].
  - destruct (truthy v) eqn:Hv.
    + rewrite IH. split.
      * intros (k & v' & ? & ? & ?). by exists (S k), v'.
      * intros ([|k] & v' & Hw & Hv' & Hf); cbn in *; [congruence|eauto].
    + rewrite elem_of_cons, IH. split.
      * intros [->|(k & v' & ? & ? & ?)]; [by exists 0%nat, v | by exists (S k), v'].
      * intros ([|k] & v' & Hw & Hv' & Hf); cbn in *; [left; congruence|eauto 6].
Qed.

Lemma exists_false_value (cv : list pyval) :
  forallb truthy cv = false ->
  (0 < length (filter (fun v => negb (truthy v)) cv))%nat.
Proof.
  induction cv as [|v cv IH]; [done|]. cbn [forallb].
  destruct (truthy v) eqn:Hv.
  - rewrite filter_cons_False; [auto | rewrite Hv; cbn; tauto].
  - rewrite filter_cons_True; [cbn; lia | rewrite Hv; cbn; tauto].
Qed.

(** C5: for a constructed Controlled with a control value that is false,
    [decomposition()] is: a PauliX on each control wire whose value is
    false, in order; one Controlled of the same base on the same control
    wires, with all control values [True] and the same work wires; the same
    PauliX gates again. There is one PauliX per false control value, on
    each side. *)
Theorem decomposition_flips_false_controls (c : Controlled O) :
  constructed c ->
  forallb truthy (control_values c) = false ->
  let flipped := false_control_wires (control_wires c) (control_values c) in
  let inner :=
    mk_Controlled (__new__ (base c)) (base c) (control_wires c)
      (replicate (length (control_wires c)) PyTrue) (work_wires c)
      ("C" +:+ op_name (base c)) None in
  (decomposition c).2
  = Ok ((PauliX <$> flipped) ++ [ControlledGate inner] ++ (PauliX <$> flipped))
  /\ length flipped = length (filter (fun v => negb (truthy v)) (control_values c))
  /\ (0 < length flipped)%nat
  /\ (forall w, w ∈ flipped <->
        exists (k : nat) v, control_wires c !! k = Some w
                            /\ control_values c !! k = Some v
                            /\ truthy v = false).
Proof.
  intros Hc Hfalse flipped inner.
  destruct (constructed_inv c Hc) as (Hlen & _ & Hdisj & _ & _).
  assert (Hcount : length flipped
                   = length (filter (fun v => negb (truthy v)) (control_values c)))
    by (by apply length_false_control_wires).
  split; [|split; [done|split]].
  - unfold decomposition. rewrite Hfalse. cbn [negb].
    assert (Hx : (comprehension (O:=O) (fun p : wire * pyval => new_PauliX p.1)
                    (filter (fun p : wire * pyval => negb (truthy p.2))
                            (zip (control_wires c) (control_values c)))).2
                 = Ok (PauliX <$> flipped)).
    { rewrite (comprehension_ok _ (fun p => PauliX p.1)).
      - unfold flipped.
        by rewrite <- filter_zip_false_control_wires, <- list_fmap_compose.
      - apply Forall_forall. by intros. }
    assert (Hi : (__init__ (base c) (control_wires c) None
                    (Some (work_wires c)) true None).2 = Ok inner).
    { destruct (constructed_NoDup c Hc) as [Hndc Hndw].
      apply init_ok; [done | done |].
      unfold init_checks. cbn [given_control_values].
      rewrite issubset_replicate_True, length_replicate.
      rewrite !bool_decide_eq_true_2; done. }
    rewrite M_bind_snd, Hx, M_bind_snd, Hi, M_bind_snd, Hx. cbn.
    by rewrite <- app_assoc.
  - rewrite Hcount. by apply exists_false_value.
  - apply elem_of_false_control_wires.
Qed.

(** C6: for a constructed Controlled, [adjoint()] is a Controlled of the
    adjoint of the base, and [pow(z)] is the list of the Controlled of each
    operator of [base.pow(z)], with the control wires, control values and
    work wires of the original, when the base has these operators and they
    act on no control wire. *)
Theorem adjoint_pow_keep_controls (c : Controlled O) :
  constructed c ->
  (forall base_adjoint,
     op_adjoint (base c) = Some base_adjoint ->
     (forall w, w ∈ op_wires base_adjoint -> w ∉ control_wires c) ->
     exists c', (adjoint c).2 = Ok c'
                /\ base c' = base_adjoint
                /\ control_wires c' = control_wires c
                /\ control_values c' = control_values c
                /\ work_wires c' = work_wires c)
  /\ (forall z base_pow,
        op_pow (base c) z = Some base_pow ->
        Forall (fun op => forall w, w ∈ op_wires op -> w ∉ control_wires c)
               base_pow ->
        exists cs, (pow c z).2 = Ok cs
                   /\ base <$> cs = base_pow
                   /\ Forall (fun c' => control_wires c' = control_wires c
                                        /\ control_values c' = control_values c
                                        /\ work_wires c' = work_wires c) cs).
Proof.
  intros Hc. destruct (constructed_inv c Hc) as (Hlen & Hsub & _ & _ & _).
  assert (Hinit : forall op,
             (forall w, w ∈ op_wires op -> w ∉ control_wires c) ->
             (__init__ op (control_wires c) (Some (CVSeq (control_values c)))
                (Some (work_wires c)) true None).2
             = Ok (init_value op (control_wires c)
                     (Some (CVSeq (control_values c)))
                     (Some (work_wires c)) None)).
  { destruct (constructed_NoDup c Hc) as [Hndc Hndw].
    intros op Hop. apply init_ok; [done | done |].
    apply init_checks_true. cbn [given_control_values].
    split; [done|]. split; [|done].
    apply Forall_forall. intros v Hv.
    unfold issubset_False_True in Hsub. rewrite forallb_forall in Hsub.
    apply Hsub. by apply list_elem_of_In. }
  split.
  - intros base_adjoint Hadj Hw.
    exists (init_value base_adjoint (control_wires c)
              (Some (CVSeq (control_values c))) (Some (work_wires c)) None).
    split; [|done].
    unfold adjoint. rewrite M_bind_snd, Hadj. cbn [lift or_raise snd].
    by apply Hinit.
  - intros z base_pow Hpow Hw.
    exists ((fun op => init_value op (control_wires c)
                         (Some (CVSeq (control_values c)))
                         (Some (work_wires c)) None) <$> base_pow).
    split; [|split].
    + unfold pow. rewrite M_bind_snd, Hpow. cbn [lift or_raise snd].
      apply comprehension_ok. eapply Forall_impl; [exact Hw|].
      intros op Hop. by apply Hinit.
    + rewrite <- list_fmap_compose. clear. induction base_pow; cbn; congruence.
    + apply Forall_fmap, Forall_forall. by intros.
Qed.
End Wrapping.

Lemma c01_op_constructed : constructed c01_op.
Proof.
  exists (pauli_x 2), [WInt 0; WInt 1], (Some (CVSeq [PyTrue; PyFalse])), None,
    false, None.
  reflexivity.
Defined.

(** C5 at [Controlled(PauliX(2), [0, 1], control_values=[True, False])]:
    one X gate on wire 1 on each side of the all-True Controlled. *)
Lemma decomposition_flips_false_controls_witness :
  (decomposition c01_op).2
  = Ok [PauliX (WInt 1);
        ControlledGate
          (mk_Controlled OperationObservable (pauli_x 2) [WInt 0; WInt 1]
             [PyTrue; PyTrue] [] "CPauliX" None);
        PauliX (WInt 1)].
Proof.
  exact (proj1 (decomposition_flips_false_controls c01_op c01_op_constructed
                  eq_refl)).
Defined.

(** C6 at the same instance: the adjoint of PauliX is PauliX. *)
Lemma adjoint_pow_keep_controls_witness :
  exists c', (adjoint c01_op).2 = Ok c'
             /\ base c' = pauli_x 2
             /\ control_wires c' = [WInt 0; WInt 1]
             /\ control_values c' = [PyTrue; PyFalse]
             /\ work_wires c' = [].
Proof.
  apply (proj1 (adjoint_pow_keep_controls c01_op c01_op_constructed)).
  - reflexivity.
  - intros w Hw Hc. cbn in Hw. apply list_elem_of_singleton in Hw. subst w.
    repeat (apply elem_of_cons in Hc as [Hc|Hc]; [discriminate|]).
    by apply not_elem_of_nil in Hc.
Defined.

Section Block_diagonal.
Context {C : Type} `{!Scalar C}.

Lemma lookup_padded (a b : nat) (r : list C) (j : nat) :
  (replicate a czero ++ r ++ replicate b czero) !! j
  = if decide (j < a)%nat then Some czero
    else if decide (j < a + length r)%nat then r !! (j - a)%nat
    else if decide (j < a + length r + b)%nat then Some czero
    else None.
Proof.
  destruct (decide (j < a)%nat) as [Ha|Ha].
  - rewrite lookup_app_l by (rewrite length_replicate; lia).
    by apply lookup_replicate_2.
  - rewrite lookup_app_r by (rewrite length_replicate; lia).
    rewrite length_replicate.
    destruct (decide (j < a + length r)%nat) as [Hr|Hr].
    + by rewrite lookup_app_l by lia.
    + rewrite lookup_app_r by lia.
      destruct (decide (j < a + length r + b)%nat) as [Hb|Hb].
      * apply lookup_replicate_2. lia.
      * apply lookup_ge_None_2. rewrite length_replicate. lia.
Qed.

Lemma length_padded (a b : nat) (r : list C) :
  length (replicate a czero ++ r ++ replicate b czero) = (a + length r + b)%nat.
Proof. rewrite !length_app, !length_replicate. lia. Qed.

Lemma length_eye_row (n i : nat) : length (eye_row n i) = n.
Proof. unfold eye_row. by rewrite length_fmap, length_seq. Qed.

Lemma lookup_eye_row (n i j : nat) :
  (j < n)%nat ->
  eye_row n i !! j = Some (if decide (i = j) then cone else czero).
Proof.
  intros Hj. unfold eye_row.
  by rewrite list_lookup_fmap, lookup_seq_lt.
Qed.

Lemma lookup_eye_rows (n i : nat) :
  (i < n)%nat -> eye_rows n !! i = Some (eye_row n i).
Proof.
  intros Hi. unfold eye_rows.
  by rewrite list_lookup_fmap, lookup_seq_lt.
Qed.

Lemma length_eye_rows (n : nat) : length (eye_rows n) = n.
Proof. unfold eye_rows. by rewrite length_fmap, length_seq. Qed.

Lemma ncols_eye_rows (dt : dtype) (n : nat) :
  nd_ncols (mk_ndarray dt (eye_rows n)) = n.
Proof.
  unfold nd_ncols, eye_rows. cbn [nd_rows]. destruct n as [|n]; [done|].
  simpl. by rewrite length_fmap, length_seq.
Qed.

Lemma block_diag_three (s p T : nat) (m : ndarray C) :
  (0 < T)%nat ->
  nd_nrows m = T ->
  Forall (fun r => length r = T) (nd_rows m) ->
  let R := block_diag [mk_ndarray complex128 (eye_rows s); m;
                       mk_ndarray complex128 (eye_rows p)] in
  nd_dtype R = complex128
  /\ nd_nrows R = (s + T + p)%nat
  /\ Forall (fun r => length r = (s + T + p)%nat) (nd_rows R)
  /\ (forall i j, (i < s + T + p)%nat -> (j < s + T + p)%nat ->
        nd_get R i j = embedded_entry (nd_get m) s T i j).
Proof.
  intros HT Hrows Hcols R.
  assert (Hm : nd_ncols m = T).
  { unfold nd_ncols, nd_nrows in *. destruct (nd_rows m) as [|r rs].
    - cbn in Hrows. lia.
    - by inversion Hcols. }
  assert (HR : nd_rows R
               = ((fun r => replicate 0 czero ++ r ++ replicate (T + p) czero)
                    <$> eye_rows s)
                 ++ ((fun r => replicate s czero ++ r ++ replicate p czero)
                       <$> nd_rows m)
                 ++ ((fun r => replicate (s + T) czero ++ r ++ replicate 0 czero)
                       <$> eye_rows p)).
  { unfold R, block_diag. cbn [nd_rows fmap list_fmap foldr block_diag_rows].
    rewrite !ncols_eye_rows, Hm, app_nil_r.
    replace (s + (T + (p + 0)) - 0 - s)%nat with (T + p)%nat by lia.
    replace (s + (T + (p + 0)) - (0 + s) - T)%nat with p by lia.
    replace (s + (T + (p + 0)) - (0 + s + T) - p)%nat with 0%nat by lia.
    by rewrite Nat.add_0_l. }
  split; [|split; [|split]].
  - unfold R, block_diag. cbn. by destruct (nd_dtype m).
  - unfold nd_nrows in *. rewrite HR, !length_app, !length_fmap, !length_eye_rows.
    lia.
  - rewrite HR, !Forall_app, !Forall_fmap. split; [|split].
    + apply Forall_forall. intros r Hr. unfold compose. cbv beta.
      apply list_elem_of_lookup in Hr as [i Hi].
      pose proof (lookup_lt_Some _ _ _ Hi) as Hlt. rewrite length_eye_rows in Hlt.
      rewrite lookup_eye_rows in Hi by done. injection Hi as <-.
      rewrite length_padded, length_eye_row. lia.
    + eapply Forall_impl; [exact Hcols|]. intros r Hr. unfold compose. cbv beta in *.
      rewrite length_padded. lia.
    + apply Forall_forall. intros r Hr. unfold compose. cbv beta.
      apply list_elem_of_lookup in Hr as [i Hi].
      pose proof (lookup_lt_Some _ _ _ Hi) as Hlt. rewrite length_eye_rows in Hlt.
      rewrite lookup_eye_rows in Hi by done. injection Hi as <-.
      rewrite length_padded, length_eye_row. lia.
  - intros i j Hi Hj. unfold nd_get, embedded_entry. rewrite HR.
    destruct (decide (i < s)%nat) as [His|His].
    + rewrite lookup_app_l by (rewrite length_fmap, length_eye_rows; lia).
      rewrite list_lookup_fmap, lookup_eye_rows by done. cbn [fmap option_fmap option_map mbind option_bind].
      rewrite lookup_padded, length_eye_row.
      repeat case_decide; try lia; try done;
        rewrite lookup_eye_row by lia; repeat case_decide; try lia; done.
    + rewrite lookup_app_r by (rewrite length_fmap, length_eye_rows; lia).
      rewrite length_fmap, length_eye_rows.
      destruct (decide (i < s + T)%nat) as [HiT|HiT].
      * rewrite lookup_app_l by (rewrite length_fmap; unfold nd_nrows in Hrows; lia).
        rewrite list_lookup_fmap.
        destruct (nd_rows m !! (i - s)%nat) as [r|] eqn:Hr.
        -- cbn [fmap option_fmap option_map mbind option_bind].
           assert (Hlr : length r = T).
           { rewrite Forall_forall in Hcols. apply Hcols.
             by eapply list_elem_of_lookup_2. }
           rewrite lookup_padded, Hlr.
           repeat case_decide; try lia; try done.
        -- apply lookup_ge_None_1 in Hr. unfold nd_nrows in Hrows. lia.
      * rewrite lookup_app_r by (rewrite length_fmap; unfold nd_nrows in Hrows; lia).
        rewrite length_fmap. unfold nd_nrows in Hrows. rewrite Hrows.
        rewrite list_lookup_fmap, lookup_eye_rows by lia.
        cbn [fmap option_fmap option_map mbind option_bind].
        rewrite lookup_padded, length_eye_row.
        repeat case_decide; try lia; try done;
          rewrite lookup_eye_row by lia; repeat case_decide; try lia; done.
Qed.
End Block_diagonal.

Section Matrix.
Context {C G O : Type} `{!Scalar C} `{!Operator C G O}.

Lemma lsb_first_bounds (bits : list bool) :
  0 <= lsb_first bits < 2 ^ Z.of_nat (length bits).
Proof.
  induction bits as [|b bits IH]; [cbn; lia|].
  cbn [lsb_first length]. rewrite Nat2Z.inj_succ, Z.pow_succ_r by lia.
  destruct b; lia.
Qed.

Lemma control_int_bounds (c : Controlled O) :
  0 <= _control_int c < 2 ^ len (control_values c).
Proof.
  rewrite control_int_value, msb_first_lsb_first.
  pose proof (lsb_first_bounds (reverse (truthy <$> control_values c))) as Hb.
  by rewrite length_reverse, length_fmap in Hb.
Qed.
(** The sizes that [matrix] and [sparse_matrix] compute fit: the block of
    the base lies within the total size. *)
Lemma block_within_total (c : Controlled O) :
  length (control_values c) = length (control_wires c) ->
  let nts := 2 ^ len (target_wires c) in
  let total := 2 ^ len (control_wires c) * nts in
  0 < nts /\ 0 <= _control_int c * nts
  /\ _control_int c * nts + nts <= total
  /\ 2 ^ (len (control_wires c) + len (target_wires c)) = total.
Proof.
  intros Hlen nts total.
  pose proof (control_int_bounds c) as Hci.
  unfold len in *. rewrite Hlen in Hci.
  assert (Hnts : 0 < nts) by (apply Z.pow_pos_nonneg; lia).
  split; [done|]. split; [nia|]. split; [unfold total; nia|].
  unfold total, nts. rewrite Z.pow_add_r; lia.
Qed.

(** C1: when the base of a constructed Controlled has a matrix [M] of size
    [2^t], for [t] target wires and [c] control wires, [matrix()] without a
    wire order is the block-diagonal matrix of an identity of size
    [control_int * 2^t], [M], and an identity that fills it up to
    [2^(c+t)]. It is complex, it is square of size [2^(c+t)], its entries
    within the block of [M] are those of [M] and the others are those of the
    identity. *)
Theorem matrix_block_diagonal (c : Controlled O) (base_matrix : ndarray C) :
  constructed c ->
  op_matrix (base c) = Some base_matrix ->
  let T := Z.to_nat (2 ^ len (target_wires c)) in
  let total := Z.to_nat (2 ^ (len (control_wires c) + len (target_wires c))) in
  let start := Z.to_nat (_control_int c * 2 ^ len (target_wires c)) in
  nd_nrows base_matrix = T ->
  Forall (fun r => length r = T) (nd_rows base_matrix) ->
  exists R,
    matrix c None = Ok R
    /\ R = block_diag [mk_ndarray complex128 (eye_rows start); base_matrix;
                       mk_ndarray complex128 (eye_rows (total - start - T))]
    /\ nd_dtype R = complex128
    /\ nd_nrows R = total
    /\ Forall (fun r => length r = total) (nd_rows R)
    /\ (forall i j, (i < total)%nat -> (j < total)%nat ->
          nd_get R i j = embedded_entry (nd_get base_matrix) start T i j).
Proof.
  intros Hc Hmat T total start Hrows Hcols.
  destruct (constructed_inv c Hc) as (Hlen & _).
  destruct (block_within_total c Hlen) as (Hnts & Hpl & Hfit & Htot).
  assert (HT : (0 < T)%nat) by (unfold T; lia).
  assert (Hsize : (start + T + (total - start - T))%nat = total).
  { unfold start, T, total. rewrite Htot. lia. }
  destruct (block_diag_three start (total - start - T) T base_matrix HT Hrows
              Hcols) as (Hdt & Hn & Hr & Hget).
  rewrite Hsize in Hn, Hr, Hget.
  eexists. split; [|split; [reflexivity|done]].
  unfold matrix, eye. rewrite Hmat. cbn [or_raise mbind result_bind rbind].
  destruct (Z.ltb_spec (_control_int c * 2 ^ len (target_wires c)) 0)
    as [Hneg|_]; [lia|].
  cbn [fmap result_fmap rbind].
  destruct (Z.ltb_spec (2 ^ len (control_wires c) * 2 ^ len (target_wires c)
                        - _control_int c * 2 ^ len (target_wires c)
                        - 2 ^ len (target_wires c)) 0) as [Hneg|_]; [lia|].
  cbn [fmap result_fmap rbind mret result_ret]. unfold cast_like_1j.
  cbn [nd_rows mbind result_bind rbind mret result_ret].
  do 7 f_equal. unfold total, start, T. rewrite Htot. lia.
Qed.
End Matrix.

(** C1 at [Controlled(PauliX(1), 0)] with [control_values=[True]]: the
    matrix of CNOT. *)
Lemma matrix_block_diagonal_witness :
  matrix cnot_op None
  = Ok (mk_ndarray complex128
          [[1; 0; 0; 0]; [0; 1; 0; 0]; [0; 0; 0; 1]; [0; 0; 1; 0]]).
Proof.
  assert (Hc : constructed cnot_op).
  { exists (pauli_x 1), [WInt 0], (Some (CVSeq [PyTrue])), None, false, None.
    reflexivity. }
  destruct (matrix_block_diagonal cnot_op
              (mk_ndarray int64 [[0; 1]; [1; 0]]) Hc eq_refl eq_refl)
    as (R & HR & -> & _).
  - repeat constructor.
  - exact HR.
Defined.

Section Sparse.
Context {C : Type} `{!Scalar C}.

Lemma elem_of_indices (r c x y : nat) :
  (x, y) ∈ indices r c <-> (x < r)%nat /\ (y < c)%nat.
Proof.
  unfold indices. rewrite list_elem_of_bind. split.
  - intros (i & Hxy & Hi). apply list_elem_of_fmap in Hxy as (j & [= -> ->] & Hj).
    apply elem_of_seq in Hi, Hj. lia.
  - intros [Hx Hy]. exists x. split.
    + apply list_elem_of_fmap. exists y. split; [done|]. apply elem_of_seq. lia.
    + apply elem_of_seq. lia.
Qed.

Lemma lookup_diagonal (l : list nat) (i j : nat) :
  foldr (fun i acc => <[(i, i) := cone]> acc) (∅ : gmap (nat * nat) C) l !! (i, j)
  = if decide (i = j /\ i ∈ l) then Some cone else None.
Proof.
  induction l as [|x l IH]; cbn [foldr].
  - rewrite lookup_empty. case_decide as Hd; [|done].
    destruct Hd as [_ Hd]. by apply not_elem_of_nil in Hd.
  - destruct (decide ((x, x) = (i, j))) as [[= -> ->]|Hne].
    + rewrite lookup_insert_eq. rewrite decide_True; [done|].
      split; [done | apply list_elem_of_here].
    + rewrite lookup_insert_ne by done. rewrite IH.
      repeat case_decide; try done.
      * exfalso. destruct H as [-> Hin]. apply H0. split; [done|].
        by apply list_elem_of_further.
      * exfalso. destruct H0 as [-> Hin]. apply elem_of_cons in Hin as [->|Hin].
        -- by apply Hne.
        -- by apply H.
Qed.

Lemma lookup_set_block (t m : gmap (nat * nat) C) (lo lo' : nat)
    (l : list (nat * nat)) (a b : nat) :
  foldr (assign_entry t lo lo') m l !! (a, b)
  = if decide ((lo <= a)%nat /\ (lo' <= b)%nat /\ ((a - lo)%nat, (b - lo')%nat) ∈ l)
    then t !! ((a - lo)%nat, (b - lo')%nat)
    else m !! (a, b).
Proof.
  induction l as [|[x y] l IH]; cbn [foldr].
  - rewrite decide_False; [done|]. intros (_ & _ & Hin).
    by apply not_elem_of_nil in Hin.
  - unfold assign_entry at 1. cbn [fst snd].
    destruct (decide ((lo + x, lo' + y)%nat = (a, b))) as [Heq|Hne].
    + injection Heq as <- <-.
      replace (lo + x - lo)%nat with x by lia.
      replace (lo' + y - lo')%nat with y by lia.
      rewrite decide_True
        by (split; [lia|split; [lia|apply list_elem_of_here]]).
      destruct (t !! (x, y)); [by rewrite lookup_insert_eq|by rewrite lookup_delete_eq].
    + assert (Hskip : foldr (assign_entry t lo lo') m l !! (a, b)
                      = if decide ((lo <= a)%nat /\ (lo' <= b)%nat
                                   /\ ((a - lo)%nat, (b - lo')%nat) ∈ (x, y) :: l)
                        then t !! ((a - lo)%nat, (b - lo')%nat)
                        else m !! (a, b)).
      { rewrite IH. repeat case_decide; try done.
        - exfalso. apply H0. destruct H as (? & ? & ?).
          split; [done|]. split; [done|]. by apply list_elem_of_further.
        - exfalso. destruct H0 as (Ha & Hb & Hin).
          apply elem_of_cons in Hin as [[= Hx Hy]|Hin].
          + apply Hne. f_equal; lia.
          + apply H. by repeat split. }
      rewrite <- Hskip.
      destruct (t !! (x, y)); [by rewrite lookup_insert_ne|by rewrite lookup_delete_ne].
Qed.

Lemma lookup_lil_data (a : ndarray C) (l : list (nat * nat)) (i j : nat) :
  foldr (store_nonzero a) ∅ l !! (i, j)
  = if decide ((i, j) ∈ l)
    then match nd_get a i j with
         | Some v => if is_nonzero v then Some v else None
         | None => None
         end
    else None.
Proof.
  induction l as [|[x y] l IH]; cbn [foldr].
  - rewrite lookup_empty. by rewrite decide_False by apply not_elem_of_nil.
  - unfold store_nonzero at 1. cbn [fst snd].
    destruct (decide ((x, y) = (i, j))) as [[= -> ->]|Hne].
    + rewrite decide_True by apply list_elem_of_here.
      destruct (nd_get a i j) as [v|] eqn:Hv.
      * destruct (is_nonzero v) eqn:Hnz; [by rewrite lookup_insert_eq|].
        rewrite IH. case_decide; [by rewrite ?Hv, ?Hnz | done].
      * rewrite IH. case_decide; [by rewrite ?Hv | done].
    + assert (Hskip : foldr (store_nonzero a) ∅ l !! (i, j)
                      = if decide ((i, j) ∈ (x, y) :: l)
                        then match nd_get a i j with
                             | Some v => if is_nonzero v then Some v else None
                             | None => None
                             end
                        else None).
      { rewrite IH. destruct (decide ((i, j) ∈ l)) as [Hl|Hl].
        - by rewrite decide_True by (by apply list_elem_of_further).
        - rewrite decide_False; [done|].
          rewrite elem_of_cons. intros [?|?]; congruence. }
      rewrite <- Hskip. destruct (nd_get a x y) as [v|]; [|done].
      destruct (is_nonzero v); [by rewrite lookup_insert_ne|done].
Qed.

(** Sparsifying a dense array keeps its entries. *)
Lemma sp_get_lil_matrix (a : ndarray C) (i j : nat) :
  (i < nd_nrows a)%nat -> (j < nd_ncols a)%nat ->
  Forall (fun r => length r = nd_ncols a) (nd_rows a) ->
  sp_get (lil_matrix a) i j = nd_get a i j.
Proof.
  intros Hi Hj Hrect. unfold sp_get, lil_matrix.
  cbn [sp_nrows sp_ncols sp_data]. rewrite decide_True by done.
  rewrite lookup_lil_data, decide_True by (by apply elem_of_indices).
  unfold nd_get, nd_nrows in *.
  destruct (nd_rows a !! i) as [r|] eqn:Hr.
  - cbn [mbind option_bind].
    assert (Hlr : length r = nd_ncols a).
    { rewrite Forall_forall in Hrect. apply Hrect.
      by eapply list_elem_of_lookup_2. }
    destruct (r !! j) as [v|] eqn:Hv.
    + destruct (is_nonzero v) eqn:Hnz; [done|].
      cbn. f_equal. symmetry. by apply is_nonzero_false.
    + apply lookup_ge_None_1 in Hv. lia.
  - apply lookup_ge_None_1 in Hr. lia.
Qed.
End Sparse.

Section Sparse_matrix.
Context {C G O : Type} `{!Scalar C} `{!Operator C G O}.

Lemma sp_set_block_raises (m t : spmatrix C) (start stop : Z) (e : exn) :
  sp_set_block m start stop t = Raise e -> exn_class e = ValueError.
Proof. unfold sp_set_block. case_bool_decide; [done|]. by intros [= <-]. Qed.

Lemma sp_get_set_block (n T : nat) (start : Z) (fmt : string) (dt : dtype)
    (t : spmatrix C) :
  0 <= start ->
  (Z.to_nat start + T <= n)%nat ->
  sp_nrows t = T -> sp_ncols t = T ->
  exists m,
    sp_set_block (sparse_eye (Z.of_nat n) fmt dt) start (start + Z.of_nat T) t
    = Ok m
    /\ sp_nrows m = n /\ sp_ncols m = n /\ sp_format m = fmt /\ sp_dtype m = dt
    /\ (forall i j, (i < n)%nat -> (j < n)%nat ->
          sp_get m i j = embedded_entry (sp_get t) (Z.to_nat start) T i j).
Proof.
  intros Hstart Hfit Hr Hc. unfold sp_set_block.
  cbn [sparse_eye sp_nrows sp_ncols sp_format sp_dtype sp_data].
  rewrite Nat2Z.id.
  replace (Z.to_nat (Z.min start (Z.of_nat n))) with (Z.to_nat start) by lia.
  replace (Z.to_nat (Z.min (start + Z.of_nat T) (Z.of_nat n)))
    with (Z.to_nat start + T)%nat by lia.
  replace (Z.to_nat start + T - Z.to_nat start)%nat with T by lia.
  rewrite bool_decide_eq_true_2 by done.
  eexists. split; [reflexivity|]. cbn [sp_nrows sp_ncols sp_format sp_dtype].
  do 4 (split; [done|]).
  intros i j Hi Hj. unfold sp_get at 1, embedded_entry.
  cbn [sp_nrows sp_ncols sp_data]. rewrite decide_True by done.
  rewrite lookup_set_block.
  destruct (decide ((Z.to_nat start <= i < Z.to_nat start + T)%nat
                    /\ (Z.to_nat start <= j < Z.to_nat start + T)%nat))
    as [Hin|Hout].
  - rewrite decide_True by (repeat split; try lia; apply elem_of_indices; lia).
    unfold sp_get. by rewrite decide_True by lia.
  - rewrite decide_False.
    + rewrite lookup_diagonal. f_equal. repeat case_decide; try done.
      * tauto.
      * exfalso. apply H. split; [done|]. apply elem_of_seq. lia.
    + intros (Ha & Hb & Hmem). apply elem_of_indices in Hmem. lia.
Qed.

(** C7: [sparse_matrix] raises [NotImplementedError] whenever a wire order
    is given. Without one, it raises [SparseMatrixUndefinedError] exactly
    when the base has neither a sparse matrix nor a matrix, and that error
    is chained from [MatrixUndefinedError]. Otherwise it takes the sparse
    matrix of the base, or the sparsified matrix of the base when there is
    no sparse one, which has the entries of the matrix; when that target
    is of size [2^t], the result, for a constructed Controlled, is the
    identity of size [2^(c+t)] in which the block of size [2^t] at
    [control_int * 2^t] on the diagonal is the target, in the requested
    format. *)
Theorem sparse_matrix_cases (c : Controlled O) :
  (forall wire_order format,
     sparse_matrix c (Some wire_order) format
     = Raise (mk_exn NotImplementedError
                "wire_order argument is not yet implemented." None))
  /\ (forall format,
        (exists e, sparse_matrix c None format = Raise e
                   /\ exn_class e = SparseMatrixUndefinedError)
        <-> op_sparse_matrix (base c) = None /\ op_matrix (base c) = None)
  /\ (forall format,
        op_sparse_matrix (base c) = None -> op_matrix (base c) = None ->
        sparse_matrix c None format
        = Raise (mk_exn SparseMatrixUndefinedError ""
                   (Some MatrixUndefinedError)))
  /\ (constructed c ->
      forall format target_mat,
        let T := Z.to_nat (2 ^ len (target_wires c)) in
        let total :=
          Z.to_nat (2 ^ (len (control_wires c) + len (target_wires c))) in
        let start := Z.to_nat (_control_int c * 2 ^ len (target_wires c)) in
        (op_sparse_matrix (base c) = Some target_mat
         \/ (op_sparse_matrix (base c) = None
             /\ exists a, op_matrix (base c) = Some a
                          /\ target_mat = lil_matrix a)) ->
        sp_nrows target_mat = T -> sp_ncols target_mat = T ->
        exists m,
          sparse_matrix c None format = Ok m
          /\ sp_nrows m = total /\ sp_ncols m = total
          /\ sp_format m = format
          /\ (forall i j, (i < total)%nat -> (j < total)%nat ->
                sp_get m i j = embedded_entry (sp_get target_mat) start T i j))
  /\ (forall a i j,
        (i < nd_nrows a)%nat -> (j < nd_ncols a)%nat ->
        Forall (fun r => length r = nd_ncols a) (nd_rows a) ->
        sp_get (lil_matrix a) i j = nd_get a i j).
Proof.
  split; [done|]. split; [|split; [|split; [|apply sp_get_lil_matrix]]].
  - intros format. unfold sparse_matrix. split.
    + intros (e & He & Hk).
      destruct (op_sparse_matrix (base c)) as [t|].
      * cbn [mbind result_bind rbind] in He.
        destruct (sp_set_block _ _ _ t) as [m|e'] eqn:Hset; [done|].
        cbn [mbind result_bind rbind] in He. injection He as ->.
        apply sp_set_block_raises in Hset. congruence.
      * destruct (op_matrix (base c)) as [a|]; [|done].
        cbn [mbind result_bind rbind] in He.
        destruct (sp_set_block _ _ _ (lil_matrix a)) as [m|e'] eqn:Hset; [done|].
        cbn [mbind result_bind rbind] in He. injection He as ->.
        apply sp_set_block_raises in Hset. congruence.
    + intros [-> ->]. eexists. split; reflexivity.
  - intros format Hs Hm. unfold sparse_matrix. by rewrite Hs, Hm.
  - intros Hc format target_mat T total start Htarget Hr Hcol.
    destruct (constructed_inv c Hc) as (Hlen & _).
    destruct (block_within_total c Hlen) as (Hnts & Hpl & Hfit & Htot).
    assert (Htm : (match op_sparse_matrix (base c) with
                   | Some t => Ok t
                   | None =>
                       match op_matrix (base c) with
                       | Some a => Ok (lil_matrix a)
                       | None =>
                           Raise (mk_exn SparseMatrixUndefinedError ""
                                    (Some MatrixUndefinedError))
                       end
                   end) = Ok target_mat).
    { destruct Htarget as [->|(-> & a & -> & ->)]; done. }
    unfold sparse_matrix. rewrite Htm. cbn [mbind result_bind rbind].
    destruct (sp_get_set_block total T
                (_control_int c * 2 ^ len (target_wires c)) "lil"
                (sp_dtype target_mat) target_mat)
      as (m & Hm & Hn1 & Hn2 & _ & _ & Hget); try done.
    { unfold total, T. rewrite Htot. fold start. unfold start. lia. }
    assert (Htotal : Z.of_nat total
                     = 2 ^ len (target_wires c) * 2 ^ len (control_wires c)).
    { unfold total. rewrite Htot. lia. }
    assert (HT : Z.of_nat T = 2 ^ len (target_wires c)) by (unfold T; lia).
    rewrite Htotal, HT in Hm. rewrite Hm. cbn [mbind result_bind rbind].
    eexists. split; [reflexivity|]. unfold asformat.
    cbn [sp_nrows sp_ncols sp_format].
    repeat (split; [done|]). intros i j Hi Hj. unfold sp_get at 1.
    cbn [sp_nrows sp_ncols sp_data]. specialize (Hget i j Hi Hj).
    unfold sp_get at 1 in Hget. by rewrite Hn1, Hn2 in *.
Qed.
End Sparse_matrix.

(** C7 at [Controlled(PauliX(1), 0)]: the sparse CNOT. *)
Lemma sparse_matrix_cases_witness :
  exists m, sparse_matrix cnot_op None "csr" = Ok m
            /\ sp_get m 2%nat 3%nat = Some 1 /\ sp_get m 3%nat 2%nat = Some 1
            /\ sp_get m 2%nat 2%nat = Some 0 /\ sp_get m 0%nat 0%nat = Some 1.
Proof.
  assert (Hc : constructed cnot_op).
  { exists (pauli_x 1), [WInt 0], (Some (CVSeq [PyTrue])), None, false, None.
    reflexivity. }
  destruct (proj1 (proj2 (proj2 (proj2 (sparse_matrix_cases cnot_op)))) Hc "csr"
              (mk_spmatrix 2 2 "csr" int64
                 {[ (0, 1)%nat := 1; (1, 0)%nat := 1 ]}))
    as (m & Hm & _ & _ & _ & Hget).
  - left. reflexivity.
  - reflexivity.
  - reflexivity.
  - exists m. split; [exact Hm|].
    rewrite (Hget 2%nat 3%nat), (Hget 3%nat 2%nat), (Hget 2%nat 2%nat),
      (Hget 0%nat 0%nat) by (vm_compute; lia).
    repeat split; vm_compute; reflexivity.
Defined.

(** * Further properties *)

Section Control_int_bits.
Context {C G O : Type} `{!Scalar C} `{!Operator C G O}.

Lemma testbit_lsb_first (bits : list bool) (i : nat) :
  Z.testbit (lsb_first bits) (Z.of_nat i) = default false (bits !! i).
Proof.
  revert i. induction bits as [|b bits IH]; intros i.
  - cbn. apply Z.testbit_0_l.
  - cbn [lsb_first].
    replace ((if b then 1 else 0) + 2 * lsb_first bits)
      with (2 * lsb_first bits + Z.b2z b) by (destruct b; cbn; lia).
    destruct i as [|i].
    + cbn. apply Z.testbit_0_r.
    + rewrite Nat2Z.inj_succ, Z.testbit_succ_r by lia. apply IH.
Qed.

Lemma testbit_control_int (c : Controlled O) (i : nat) :
  Z.testbit (_control_int c) (Z.of_nat i)
  = default false (reverse (truthy <$> control_values c) !! i).
Proof.
  rewrite control_int_value, msb_first_lsb_first. apply testbit_lsb_first.
Qed.

(** X1: [_control_int] is a number of as many bits as there are control
    values: it lies between 0 and [2^len(control_values) - 1]. *)
Theorem control_int_range (c : Controlled O) :
  0 <= _control_int c <= 2 ^ len (control_values c) - 1.
Proof. pose proof (control_int_bounds c). lia. Qed.

(** X2: the control values can be read back from [_control_int]: bit [i]
    (from the least significant one) is set exactly when the control value
    at position [len - 1 - i] is true, and no bit is set from [len] on. *)
Theorem control_int_bits (c : Controlled O) (i : nat) :
  Z.testbit (_control_int c) (Z.of_nat i)
  = if decide (i < length (control_values c))%nat
    then default false
           (truthy <$> control_values c !! (length (control_values c) - 1 - i)%nat)
    else false.
Proof.
  rewrite testbit_control_int. case_decide as Hi.
  - rewrite reverse_lookup by (by rewrite length_fmap).
    rewrite length_fmap, list_lookup_fmap.
    replace (length (control_values c) - S i)%nat
      with (length (control_values c) - 1 - i)%nat by lia.
    done.
  - rewrite lookup_ge_None_2; [done|].
    rewrite length_reverse, length_fmap. lia.
Qed.

(** X3: among instances with equally many control values, [_control_int]
    determines which control values are true. *)
Theorem control_int_injective (c c' : Controlled O) :
  length (control_values c) = length (control_values c') ->
  _control_int c = _control_int c' ->
  truthy <$> control_values c = truthy <$> control_values c'.
Proof.
  intros Hlen Heq.
  apply (inj reverse). apply list_eq. intros i.
  pose proof (testbit_control_int c i) as H1.
  pose proof (testbit_control_int c' i) as H2.
  rewrite Heq, H2 in H1.
  destruct (decide (i < length (control_values c))%nat) as [Hi|Hi].
  - destruct (lookup_lt_is_Some_2 (reverse (truthy <$> control_values c)) i)
      as [x Hx]; [by rewrite length_reverse, length_fmap|].
    destruct (lookup_lt_is_Some_2 (reverse (truthy <$> control_values c')) i)
      as [y Hy]; [rewrite length_reverse, length_fmap; lia|].
    rewrite Hx, Hy in *. cbn in H1. congruence.
  - rewrite !lookup_ge_None_2; [done|..];
      rewrite length_reverse, length_fmap; lia.
Qed.
End Control_int_bits.

(** X3 at the control values [True, False] and [1, 0]: the same integer,
    the same truth values. *)
Lemma control_int_injective_witness :
  truthy <$> control_values c01_op = truthy <$> [PyInt 1; PyInt 0].
Proof.
  exact (control_int_injective c01_op
           (mk_Controlled OperationObservable (pauli_x 2) [WInt 0; WInt 1]
              [PyInt 1; PyInt 0] [] "CPauliX" None) eq_refl eq_refl).
Defined.

Section Matrix_more.
Context {C G O : Type} `{!Scalar C} `{!Operator C G O}.

(** The canonical matrix, whatever the shape of the base matrix. *)
Lemma matrix_canonical (c : Controlled O) (base_matrix : ndarray C) :
  length (control_values c) = length (control_wires c) ->
  op_matrix (base c) = Some base_matrix ->
  matrix c None
  = Ok (block_diag
          [mk_ndarray complex128
             (eye_rows (Z.to_nat (_control_int c * 2 ^ len (target_wires c))));
           base_matrix;
           mk_ndarray complex128
             (eye_rows (Z.to_nat (2 ^ len (control_wires c) * 2 ^ len (target_wires c)
                                  - _control_int c * 2 ^ len (target_wires c)
                                  - 2 ^ len (target_wires c))))]).
Proof.
  intros Hlen Hmat.
  destruct (block_within_total c Hlen) as (Hnts & Hpl & Hfit & Htot).
  unfold matrix, eye. rewrite Hmat. cbn [or_raise mbind result_bind rbind].
  destruct (Z.ltb_spec (_control_int c * 2 ^ len (target_wires c)) 0)
    as [Hneg|_]; [lia|].
  cbn [fmap result_fmap rbind].
  destruct (Z.ltb_spec (2 ^ len (control_wires c) * 2 ^ len (target_wires c)
                        - _control_int c * 2 ^ len (target_wires c)
                        - 2 ^ len (target_wires c)) 0) as [Hneg|_]; [lia|].
  reflexivity.
Qed.

(** X4: on a constructed Controlled, [matrix] without a wire order fails
    exactly when the base has no matrix: the sizes of the identity blocks
    are never negative. With or without a wire order, a base that has no
    matrix makes [matrix] raise the [MatrixUndefinedError] of the base,
    before the wire order is looked at. *)
Theorem matrix_fails_iff (c : Controlled O) (wire_order : option (list wire)) :
  constructed c ->
  (is_ok (matrix c None) = false <-> op_matrix (base c) = None)
  /\ (op_matrix (base c) = None ->
      matrix c wire_order = Raise (mk_exn MatrixUndefinedError "" None)).
Proof.
  intros Hc. destruct (constructed_inv c Hc) as (Hlen & _).
  split.
  - destruct (op_matrix (base c)) as [m|] eqn:Hm.
    + rewrite (matrix_canonical c m Hlen Hm). cbn. split; discriminate.
    + unfold matrix. rewrite Hm. cbn. done.
  - intros Hm. unfold matrix. by rewrite Hm.
Qed.

Lemma lsb_first_all_true (bits : list bool) :
  forallb id bits = true <-> lsb_first bits = 2 ^ Z.of_nat (length bits) - 1.
Proof.
  induction bits as [|b bits IH]; [done|].
  cbn [forallb lsb_first length].
  rewrite Nat2Z.inj_succ, Z.pow_succ_r by lia.
  pose proof (lsb_first_bounds bits) as Hb.
  rewrite andb_true_iff, IH.
  destruct b; cbn; (split; [intros [? ?]|intros ?]);
    try split; try done; try lia.
Qed.

Lemma lsb_first_all_false (bits : list bool) :
  forallb negb bits = true <-> lsb_first bits = 0.
Proof.
  induction bits as [|b bits IH]; [done|].
  cbn [forallb lsb_first]. pose proof (lsb_first_bounds bits) as Hb.
  rewrite andb_true_iff, IH.
  destruct b; cbn; (split; [intros [? ?]|intros ?]);
    try split; try done; try lia.
Qed.

Lemma forallb_reverse {A} (f : A -> bool) (l : list A) :
  forallb f (reverse l) = forallb f l.
Proof.
  induction l as [|x l IH]; [done|].
  rewrite reverse_cons, forallb_app, IH. cbn. destruct (f x), (forallb f l); done.
Qed.

Lemma forallb_fmap {A B} (f : B -> bool) (g : A -> B) (l : list A) :
  forallb f (g <$> l) = forallb (fun x => f (g x)) l.
Proof. induction l as [|x l IH]; [done|]. cbn. by rewrite IH. Qed.

Lemma control_int_all (c : Controlled O) :
  (forallb truthy (control_values c) = true
   <-> _control_int c = 2 ^ len (control_values c) - 1)
  /\ (forallb (fun v => negb (truthy v)) (control_values c) = true
      <-> _control_int c = 0).
Proof.
  rewrite control_int_value, msb_first_lsb_first. split.
  - rewrite <- (forallb_reverse truthy), <- (forallb_fmap id truthy).
    rewrite fmap_reverse, lsb_first_all_true.
    by rewrite length_reverse, length_fmap.
  - rewrite <- (forallb_reverse (fun v => negb (truthy v))),
      <- (forallb_fmap negb truthy).
    by rewrite fmap_reverse, lsb_first_all_false.
Qed.

(** X5: [_control_int] is the largest value, [2^len - 1], exactly when
    every control value is true, and 0 exactly when every control value is
    false. *)
Theorem control_int_extremes (c : Controlled O) :
  (forallb truthy (control_values c) = true
   <-> _control_int c = 2 ^ len (control_values c) - 1)
  /\ (forallb (fun v => negb (truthy v)) (control_values c) = true
      <-> _control_int c = 0).
Proof. apply control_int_all. Qed.

(** X6: on a constructed Controlled whose control values are all true, as
    they are by default, the matrix of the base is the last diagonal block:
    [matrix()] is an identity of size [2^(c+t) - 2^t] followed by the base
    matrix. *)
Theorem matrix_all_true_block_last (c : Controlled O) (base_matrix : ndarray C) :
  constructed c ->
  forallb truthy (control_values c) = true ->
  op_matrix (base c) = Some base_matrix ->
  matrix c None
  = Ok (block_diag
          [mk_ndarray complex128
             (eye_rows (Z.to_nat (2 ^ (len (control_wires c) + len (target_wires c))
                                  - 2 ^ len (target_wires c))));
           base_matrix;
           mk_ndarray complex128 []]).
Proof.
  intros Hc Hall Hmat. destruct (constructed_inv c Hc) as (Hlen & _).
  rewrite (matrix_canonical c base_matrix Hlen Hmat).
  apply (proj1 (control_int_all c)) in Hall.
  unfold len in *. rewrite Hlen in Hall. rewrite Hall.
  rewrite Z.pow_add_r by lia.
  set (T := 2 ^ Z.of_nat (length (target_wires c))).
  set (N := 2 ^ Z.of_nat (length (control_wires c))).
  replace ((N - 1) * T) with (N * T - T) by lia.
  replace (N * T - (N * T - T) - T) with 0 by lia.
  reflexivity.
Qed.
End Matrix_more.

(** X4 at [Controlled(PauliX(1), 0)], whose base has a matrix. *)
Lemma matrix_fails_iff_witness :
  is_ok (matrix cnot_op None) = false <-> op_matrix (base cnot_op) = None.
Proof.
  assert (Hc : constructed cnot_op).
  { exists (pauli_x 1), [WInt 0], (Some (CVSeq [PyTrue])), None, false, None.
    reflexivity. }
  exact (proj1 (matrix_fails_iff cnot_op (Some [WInt 1; WInt 0]) Hc)).
Defined.

(** X6 at [Controlled(PauliX(1), 0)]. *)
Lemma matrix_all_true_block_last_witness :
  matrix cnot_op None
  = Ok (mk_ndarray complex128
          [[1; 0; 0; 0]; [0; 1; 0; 0]; [0; 0; 0; 1]; [0; 0; 1; 0]]).
Proof.
  assert (Hc : constructed cnot_op).
  { exists (pauli_x 1), [WInt 0], (Some (CVSeq [PyTrue])), None, false, None.
    reflexivity. }
  exact (matrix_all_true_block_last cnot_op
           (mk_ndarray int64 [[0; 1]; [1; 0]]) Hc eq_refl eq_refl).
Defined.

Section Eigvals_more.
Context {C G O : Type} `{!Scalar C} `{!Operator C G O}.

(** X7: [eigvals()] returns exactly when the base has eigenvalues and not
    more than [2^(c+t)] of them, and what it returns has [2^(c+t)] entries.
    Without eigenvalues of the base it fails with the error of the base,
    and with too many of them with a [ValueError]. *)
Theorem eigvals_length (c : Controlled O) :
  let total := 2 ^ (len (target_wires c) + len (control_wires c)) in
  (forall l, eigvals c = Ok l -> len l = total)
  /\ (is_ok (eigvals c) = true
      <-> exists ev, op_eigvals (base c) = Some ev /\ len ev <= total)
  /\ (op_eigvals (base c) = None ->
      eigvals c = Raise (mk_exn EigvalsUndefinedError "" None))
  /\ (forall ev, op_eigvals (base c) = Some ev -> total < len ev ->
      exists msg, eigvals c = Raise (mk_exn ValueError msg None)).
Proof.
  intros total. unfold eigvals, ones. fold total.
  destruct (op_eigvals (base c)) as [ev|]; cbn [or_raise mbind result_bind rbind].
  - destruct (Z.ltb_spec (total - len ev) 0) as [Hneg|Hpos];
      cbn [rbind mret result_ret is_ok].
    + split; [done|]. split; [|split; [done|eauto]].
      split; [done|]. intros (ev' & [= <-] & Hle). lia.
    + split; [|split; [|split; [done|]]].
      * intros l [= <-]. unfold len in *.
        rewrite length_app, length_replicate. lia.
      * split; [|done]. intros _. exists ev. split; [done|lia].
      * intros ev' [= <-] Hlt. lia.
  - split; [done|]. split; [|done]. split; [done|]. by intros (ev & ? & _).
Qed.
End Eigvals_more.

Section Sparse_dense.
Context {C G O : Type} `{!Scalar C} `{!Operator C G O}.

(** The sparse matrix of a constructed Controlled for a target of the
    size of the base. *)
Lemma sparse_matrix_target (c : Controlled O) (format : string)
    (target_mat : spmatrix C) :
  length (control_values c) = length (control_wires c) ->
  let T := Z.to_nat (2 ^ len (target_wires c)) in
  let total := Z.to_nat (2 ^ (len (control_wires c) + len (target_wires c))) in
  let start := Z.to_nat (_control_int c * 2 ^ len (target_wires c)) in
  (match op_sparse_matrix (base c) with
   | Some t => Some t
   | None => lil_matrix <$> op_matrix (base c)
   end) = Some target_mat ->
  sp_nrows target_mat = T -> sp_ncols target_mat = T ->
  exists m,
    sparse_matrix c None format = Ok m
    /\ sp_nrows m = total /\ sp_ncols m = total
    /\ (forall i j, (i < total)%nat -> (j < total)%nat ->
          sp_get m i j = embedded_entry (sp_get target_mat) start T i j).
Proof.
  intros Hlen T total start Htarget Hr Hcol.
  destruct (block_within_total c Hlen) as (Hnts & Hpl & Hfit & Htot).
  destruct (sp_get_set_block total T
              (_control_int c * 2 ^ len (target_wires c)) "lil"
              (sp_dtype target_mat) target_mat)
    as (m & Hm & Hn1 & Hn2 & _ & _ & Hget); try done.
  { unfold total, T. rewrite Htot. lia. }
  assert (Htotal : Z.of_nat total
                   = 2 ^ len (target_wires c) * 2 ^ len (control_wires c)).
  { unfold total. rewrite Htot. lia. }
  assert (HT : Z.of_nat T = 2 ^ len (target_wires c)) by (unfold T; lia).
  rewrite Htotal, HT in Hm.
  exists (asformat m format). split; [|split; [done|split; [done|]]].
  - unfold sparse_matrix.
    destruct (op_sparse_matrix (base c)) as [t|].
    + injection Htarget as ->. cbn [mbind result_bind rbind]. by rewrite Hm.
    + destruct (op_matrix (base c)) as [a|]; [|done].
      injection Htarget as <-. cbn [mbind result_bind rbind]. by rewrite Hm.
  - intros i j Hi Hj. transitivity (sp_get m i j); [done|by apply Hget].
Qed.

(** X8: on a constructed Controlled whose base has a matrix of size [2^t],
    and either no sparse matrix or a sparse matrix with the same entries,
    [sparse_matrix()] and [matrix()] are the same matrix: the same size and
    the same entry at every position. *)
Theorem sparse_matrix_agrees_with_matrix (c : Controlled O)
    (base_matrix : ndarray C) (format : string) :
  constructed c ->
  op_matrix (base c) = Some base_matrix ->
  let T := Z.to_nat (2 ^ len (target_wires c)) in
  nd_nrows base_matrix = T ->
  Forall (fun r => length r = T) (nd_rows base_matrix) ->
  (op_sparse_matrix (base c) = None
   \/ exists t, op_sparse_matrix (base c) = Some t
                /\ sp_nrows t = T /\ sp_ncols t = T
                /\ forall i j, (i < T)%nat -> (j < T)%nat ->
                     sp_get t i j = nd_get base_matrix i j) ->
  exists m R,
    sparse_matrix c None format = Ok m
    /\ matrix c None = Ok R
    /\ sp_nrows m = nd_nrows R /\ sp_ncols m = nd_nrows R
    /\ Forall (fun r => length r = nd_nrows R) (nd_rows R)
    /\ (forall i j, sp_get m i j = nd_get R i j).
Proof.
  intros Hc Hmat T Hrows Hcols Hsparse.
  destruct (constructed_inv c Hc) as (Hlen & _).
  destruct (block_within_total c Hlen) as (Hnts & Hpl & Hfit & Htot).
  set (total := Z.to_nat (2 ^ (len (control_wires c) + len (target_wires c)))).
  set (start := Z.to_nat (_control_int c * 2 ^ len (target_wires c))).
  assert (HT : (0 < T)%nat) by (unfold T; lia).
  assert (Hncols : nd_ncols base_matrix = T).
  { unfold nd_ncols, nd_nrows in *. destruct (nd_rows base_matrix) as [|r rs].
    - cbn in Hrows. lia.
    - by inversion Hcols. }
  (* the dense side *)
  assert (Hsize : (start + T + (total - start - T))%nat = total).
  { unfold start, T, total. rewrite Htot. lia. }
  destruct (block_diag_three start (total - start - T) T base_matrix HT Hrows
              Hcols) as (_ & Hn & Hr & Hget).
  rewrite Hsize in Hn, Hr, Hget.
  assert (HR : matrix c None
               = Ok (block_diag
                       [mk_ndarray complex128 (eye_rows start); base_matrix;
                        mk_ndarray complex128 (eye_rows (total - start - T))])).
  { rewrite (matrix_canonical c base_matrix Hlen Hmat). do 7 f_equal.
    unfold total, start, T. rewrite Htot. lia. }
  (* the sparse side *)
  assert (Htarget : exists t,
             (match op_sparse_matrix (base c) with
              | Some t => Some t
              | None => lil_matrix <$> op_matrix (base c)
              end) = Some t
             /\ sp_nrows t = T /\ sp_ncols t = T
             /\ forall i j, (i < T)%nat -> (j < T)%nat ->
                  sp_get t i j = nd_get base_matrix i j).
  { destruct Hsparse as [->|(t & -> & ? & ? & ?)]; [|by exists t].
    rewrite Hmat. exists (lil_matrix base_matrix).
    split; [done|]. split; [exact Hrows|]. split; [exact Hncols|].
    intros i j Hi Hj. apply sp_get_lil_matrix; rewrite ?Hncols, ?Hrows; done. }
  destruct Htarget as (t & Ht & Htr & Htc & Hsame).
  destruct (sparse_matrix_target c format t Hlen Ht Htr Htc)
    as (m & Hm & Hm1 & Hm2 & Hmget).
  fold T total start in Hmget, Hm1, Hm2.
  eexists m, _. split; [exact Hm|]. split; [exact HR|].
  rewrite Hn. split; [done|]. split; [done|]. split; [done|].
  intros i j.
  destruct (decide (i < total ∧ j < total)%nat) as [[Hi Hj]|Hout].
  - rewrite Hmget, Hget by done. unfold embedded_entry.
    case_decide as Hin; [|done]. apply Hsame; lia.
  - unfold sp_get. rewrite Hm1, Hm2, decide_False by done.
    unfold nd_get. symmetry.
    destruct (decide (i < total)%nat) as [Hi|Hi].
    + destruct (_ !! i) as [r|] eqn:Hri; [|done]. cbn.
      apply lookup_ge_None_2.
      rewrite Forall_forall in Hr.
      rewrite (Hr r) by (by eapply list_elem_of_lookup_2). lia.
    + rewrite lookup_ge_None_2; [done|]. unfold nd_nrows in Hn. lia.
Qed.
End Sparse_dense.

(** X8 at the controlled version of an operator that only has a dense
    matrix. *)
Lemma sparse_matrix_agrees_with_matrix_witness :
  exists m R,
    sparse_matrix
      (mk_Controlled Neither (dense_only 1) [WInt 0] [PyTrue] [] "CDense" None)
      None "csr" = Ok m
    /\ matrix
         (mk_Controlled Neither (dense_only 1) [WInt 0] [PyTrue] [] "CDense" None)
         None = Ok R
    /\ sp_nrows m = nd_nrows R /\ sp_ncols m = nd_nrows R
    /\ Forall (fun r => length r = nd_nrows R) (nd_rows R)
    /\ (forall i j, sp_get m i j = nd_get R i j).
Proof.
  apply (sparse_matrix_agrees_with_matrix _
           (mk_ndarray int64 [[0; 1]; [1; 0]])).
  - exists (dense_only 1), [WInt 0], (Some (CVSeq [PyTrue])), None, false, None.
    reflexivity.
  - reflexivity.
  - reflexivity.
  - repeat constructor.
  - left. reflexivity.
Defined.

Section Queuing.
Context {C G O : Type} `{!Scalar C} `{!Operator C G O}.

Lemma M_bind_fst {A B} (m : M O A) (k : A -> M O B) :
  (m ≫= k).1 = m.1 ++ match m.2 with Ok a => (k a).1 | Raise e => [] end.
Proof.
  unfold mbind, M_mbind, M_bind. destruct m.2; [done|].
  cbn. by rewrite app_nil_r.
Qed.

Lemma init_events (b : O) (cw : list wire) (cv : option control_values_arg)
    (ww : option (list wire)) (do_queue : bool) (id : option string) :
  let self := init_value b cw cv ww id in
  (__init__ b cw cv ww do_queue id).1
  = (match cv with
     | Some (CVStr _) =>
         if bool_decide (NoDup cw) then
           [Warn "UserWarning"
              "Specifying control values as a string is deprecated. Please use Sequence[Bool]"]
         else []
     | _ => []
     end)
    ++ (if is_ok (__init__ b cw cv ww do_queue id).2 && do_queue
        then [SafeUpdateInfo b self; Append (ControlledGate self)]
        else []).
Proof.
  intros self. rewrite init_table. fold self.
  destruct (bool_decide (NoDup cw)); cbn [negb].
  - repeat (match goal with
            | |- context [negb ?x] => destruct x; cbn [negb]
            end); cbn [fst snd is_ok andb]; rewrite ?app_nil_r; try done;
      by destruct do_queue.
  - by destruct cv as [[?|?]|].
Qed.

(** X9: what a constructor call leaves in the log. The control wires are
    converted first; a call that fails there, on a repeated label, logs
    nothing. Otherwise the call warns once exactly when the control values
    are a string, also when it fails afterwards. It queues exactly when it
    succeeds and [do_queue] is set: it then records itself as the owner of
    the base and appends itself; a call that fails queues nothing. *)
Theorem init_log (b : O) (cw : list wire) (cv : option control_values_arg)
    (ww : option (list wire)) (do_queue : bool) (id : option string) :
  let self := init_value b cw cv ww id in
  (__init__ b cw cv ww do_queue id).1
  = (match cv with
     | Some (CVStr _) =>
         if bool_decide (NoDup cw) then
           [Warn "UserWarning"
              "Specifying control values as a string is deprecated. Please use Sequence[Bool]"]
         else []
     | _ => []
     end)
    ++ (if is_ok (__init__ b cw cv ww do_queue id).2 && do_queue
        then [SafeUpdateInfo b self; Append (ControlledGate self)]
        else []).
Proof. apply init_events. Qed.

Lemma comprehension_PauliX (l : list (wire * pyval)) :
  comprehension (O:=O) (fun p => new_PauliX p.1) l
  = ((fun p => Append (PauliX p.1)) <$> l, Ok ((fun p => PauliX p.1) <$> l)).
Proof.
  induction l as [|p l IH]; [done|].
  cbn [comprehension]. rewrite IH.
  unfold new_PauliX, mbind, mret, M_mbind, M_mret, M_bind, M_ret, emit.
  cbn. by rewrite app_nil_r.
Qed.

Lemma appended_app (l k : list (event O)) :
  appended (l ++ k) = appended l ++ appended k.
Proof. unfold appended. apply omap_app. Qed.

Lemma appended_PauliX (l : list (wire * pyval)) :
  appended ((fun p => Append (PauliX p.1)) <$> l)
  = (fun p => PauliX (O:=O) p.1) <$> l.
Proof. induction l as [|p l IH]; [done|]. cbn. by rewrite <- IH. Qed.

(** X11: on a constructed Controlled, [decomposition()] returns a list
    exactly when some control value is false, and raises
    [DecompositionUndefinedError] when all are true. When it returns, the
    operators that it appends to the queue are the operators that it
    returns, in the same order, and the Controlled among them has no
    decomposition of its own. *)
Theorem decomposition_defined_iff (c : Controlled O) :
  constructed c ->
  (is_ok (decomposition c).2 = true
   <-> forallb truthy (control_values c) = false)
  /\ (forallb truthy (control_values c) = true ->
      decomposition c
      = ([], Raise (mk_exn DecompositionUndefinedError "" None)))
  /\ (forall gates, (decomposition c).2 = Ok gates ->
        appended (decomposition c).1 = gates
        /\ forall inner, ControlledGate inner ∈ gates ->
             (decomposition inner).2
             = Raise (mk_exn DecompositionUndefinedError "" None)).
Proof.
  intros Hc. destruct (constructed_inv c Hc) as (Hlen & _ & Hdisj & _ & _).
  destruct (forallb truthy (control_values c)) eqn:Hall.
  - unfold decomposition. rewrite Hall. cbn.
    split; [split; discriminate|]. split; [done|]. intros gates [=].
  - destruct (constructed_NoDup c Hc) as [Hndc Hndw].
    assert (Hchk : init_checks (base c) (control_wires c) None = true).
    { unfold init_checks. cbn [given_control_values].
      rewrite issubset_replicate_True, length_replicate.
      by rewrite !bool_decide_eq_true_2. }
    pose proof (init_ok (base c) (control_wires c) None
                  (Some (work_wires c)) true None Hndc Hndw Hchk) as Hok.
    split; [|split; [discriminate|]].
    + split; [done|]. intros _.
      unfold decomposition. rewrite Hall. cbn [negb].
      rewrite !comprehension_PauliX, M_bind_snd. cbn [snd].
      rewrite M_bind_snd. by rewrite Hok.
    + intros gates. unfold decomposition. rewrite Hall. cbn [negb].
      rewrite !comprehension_PauliX.
      pose proof (init_events (base c) (control_wires c) None
                    (Some (work_wires c)) true None) as Hlog.
      rewrite Hok in Hlog. cbn [is_ok andb app] in Hlog.
      rewrite M_bind_snd, M_bind_fst. cbn [fst snd].
      rewrite M_bind_snd, M_bind_fst, Hok, Hlog. cbn [fst snd].
      rewrite M_bind_snd, M_bind_fst. cbn [fst snd mret M_mret M_ret].
      intros [= <-]. split.
      * rewrite !appended_app, !appended_PauliX, <- !app_assoc.
        change (appended (O:=O) []) with (@nil (gate O)).
        by rewrite app_nil_r.
      * intros inner Hin.
        rewrite !elem_of_app, elem_of_cons in Hin.
        destruct Hin as [[Hin|[Hin|Hin]]|Hin].
        -- apply list_elem_of_fmap in Hin as (? & [=] & _).
        -- injection Hin as ->. unfold decomposition, init_value.
           cbn [control_values given_control_values].
           replace (forallb truthy (replicate _ PyTrue)) with true; [done|].
           symmetry. clear. induction (length (control_wires c)); cbn; auto.
        -- by apply not_elem_of_nil in Hin.
        -- apply list_elem_of_fmap in Hin as (? & [=] & _).
Qed.
End Queuing.

(** X11 at [Controlled(PauliX(2), [0, 1], control_values=[True, False])]. *)
Lemma decomposition_defined_iff_witness :
  is_ok (decomposition c01_op).2 = true
  /\ appended (decomposition c01_op).1
     = [PauliX (WInt 1);
        ControlledGate
          (mk_Controlled OperationObservable (pauli_x 2) [WInt 0; WInt 1]
             [PyTrue; PyTrue] [] "CPauliX" None);
        PauliX (WInt 1)].
Proof.
  destruct (decomposition_defined_iff c01_op c01_op_constructed)
    as (Hiff & _ & Hq).
  split; [by apply Hiff|].
  exact (proj1 (Hq _ eq_refl)).
Defined.

Section Adjoint_pow.
Context {C G O : Type} `{!Scalar C} `{!Operator C G O}.

Lemma comprehension_is_ok {A B} (f : A -> M O B) (l : list A) :
  is_ok (comprehension f l).2 = forallb (fun x => is_ok (f x).2) l.
Proof.
  induction l as [|x l IH]; [done|].
  cbn [comprehension forallb]. rewrite M_bind_snd.
  destruct (f x).2 as [y|e]; [|done]. rewrite M_bind_snd, <- IH.
  by destruct (comprehension f l).2.
Qed.

Lemma comprehension_length {A B} (f : A -> M O B) (l : list A) (ys : list B) :
  (comprehension f l).2 = Ok ys -> length ys = length l.
Proof.
  revert ys. induction l as [|x l IH]; intros ys.
  - by intros [= <-].
  - cbn [comprehension]. rewrite M_bind_snd.
    destruct (f x).2 as [y|e]; [|done]. rewrite M_bind_snd.
    destruct (comprehension f l).2 as [zs|e]; [|done].
    intros [= <-]. cbn. f_equal. by apply IH.
Qed.

(** Constructing again with the control values of a constructed instance
    depends on the wires of the new base alone. *)
Lemma reinit_checks (c : Controlled O) (op : O) :
  constructed c ->
  init_checks op (control_wires c) (Some (CVSeq (control_values c))) = true
  <-> (forall w, w ∈ op_wires op -> w ∉ control_wires c).
Proof.
  intros Hc. destruct (constructed_inv c Hc) as (Hlen & Hsub & _).
  unfold init_checks. cbn [given_control_values].
  rewrite Hsub, bool_decide_eq_true_2 by done. cbn [andb].
  rewrite bool_decide_eq_true. apply shared_wires_nil.
Qed.

Lemma reinit_is_ok (c : Controlled O) (op : O) :
  constructed c ->
  is_ok (__init__ op (control_wires c) (Some (CVSeq (control_values c)))
           (Some (work_wires c)) true None).2 = true
  <-> (forall w, w ∈ op_wires op -> w ∉ control_wires c).
Proof.
  intros Hc. rewrite <- (reinit_checks c op Hc).
  destruct (constructed_NoDup c Hc) as [Hndc Hndw].
  rewrite init_is_ok. cbn [from_option].
  rewrite (bool_decide_eq_true_2 _ Hndc), (bool_decide_eq_true_2 _ Hndw).
  by rewrite andb_true_r.
Qed.

Lemma reinit_ok (c : Controlled O) (op : O) :
  constructed c ->
  (forall w, w ∈ op_wires op -> w ∉ control_wires c) ->
  (__init__ op (control_wires c) (Some (CVSeq (control_values c)))
     (Some (work_wires c)) true None).2
  = Ok (init_value op (control_wires c) (Some (CVSeq (control_values c)))
          (Some (work_wires c)) None).
Proof.
  intros Hc Hw. destruct (constructed_NoDup c Hc) as [Hndc Hndw].
  apply init_ok; [done | done |]. by apply (reinit_checks c _ Hc).
Qed.

(** X12: on a constructed Controlled, [adjoint()] returns exactly when the
    base has an adjoint that acts on no control wire. The result takes its
    type and its name from the adjoint of the base and has no id, whatever
    the id of the original was. Without an adjoint of the base, the error
    of the base comes through and nothing is queued. *)
Theorem adjoint_result (c : Controlled O) :
  constructed c ->
  (is_ok (adjoint c).2 = true
   <-> exists base_adjoint,
         op_adjoint (base c) = Some base_adjoint
         /\ forall w, w ∈ op_wires base_adjoint -> w ∉ control_wires c)
  /\ (op_adjoint (base c) = None ->
      adjoint c = ([], Raise (mk_exn AdjointUndefinedError "" None)))
  /\ (forall c', (adjoint c).2 = Ok c' ->
        exists base_adjoint,
          op_adjoint (base c) = Some base_adjoint
          /\ c' = mk_Controlled (__new__ base_adjoint) base_adjoint
                    (control_wires c) (control_values c) (work_wires c)
                    ("C" +:+ op_name base_adjoint) None).
Proof.
  intros Hc. unfold adjoint.
  destruct (op_adjoint (base c)) as [b'|] eqn:Hadj.
  - split; [|split; [done|]].
    + rewrite M_bind_snd. cbn [lift or_raise snd].
      rewrite (reinit_is_ok c b' Hc). split.
      * intros Hw. by exists b'.
      * by intros (? & [= <-] & Hw).
    + intros c'. rewrite M_bind_snd. cbn [lift or_raise snd].
      intros Hok. apply init_inv in Hok as [_ ->]. by exists b'.
  - split; [|split; [done|]].
    + cbn. split; [done|]. by intros (? & ? & _).
    + intros c'. rewrite M_bind_snd. by cbn.
Qed.

(** X13: taking the adjoint twice gives the original back, without its
    id, when the adjoint of the adjoint of the base is the base. *)
Theorem adjoint_involutive (c : Controlled O) (base_adjoint : O) :
  constructed c ->
  op_adjoint (base c) = Some base_adjoint ->
  op_adjoint base_adjoint = Some (base c) ->
  (forall w, w ∈ op_wires base_adjoint -> w ∉ control_wires c) ->
  exists c',
    (adjoint c).2 = Ok c'
    /\ (adjoint c').2
       = Ok (mk_Controlled (type_of c) (base c) (control_wires c)
               (control_values c) (work_wires c) (_name c) None).
Proof.
  intros Hc Hadj Hback Hw.
  destruct (constructed_inv c Hc) as (Hlen & Hsub & Hdisj & Hname & Htype).
  assert (H1 : (adjoint c).2
               = Ok (init_value base_adjoint (control_wires c)
                       (Some (CVSeq (control_values c)))
                       (Some (work_wires c)) None)).
  { unfold adjoint. rewrite M_bind_snd, Hadj. cbn [lift or_raise snd].
    by apply reinit_ok. }
  eexists. split; [exact H1|].
  unfold adjoint at 1. rewrite M_bind_snd. cbn [init_value base].
  rewrite Hback. cbn [lift or_raise snd control_wires control_values work_wires].
  etrans; [apply (reinit_ok c (base c) Hc); by apply shared_wires_nil|].
  unfold init_value. cbn [given_control_values default]. by rewrite Hname, Htype.
Qed.

(** X14: on a constructed Controlled, [pow(z)] returns exactly when the
    base has a power decomposition none of whose operators acts on a
    control wire; one operator that does makes the whole call fail. The
    result has one Controlled per operator of the base, and none for an
    empty decomposition. *)
Theorem pow_result (c : Controlled O) (z : C) :
  constructed c ->
  (is_ok (pow c z).2 = true
   <-> exists base_pow,
         op_pow (base c) z = Some base_pow
         /\ Forall (fun op => forall w, w ∈ op_wires op -> w ∉ control_wires c)
                   base_pow)
  /\ (forall cs base_pow,
        (pow c z).2 = Ok cs -> op_pow (base c) z = Some base_pow ->
        length cs = length base_pow)
  /\ (op_pow (base c) z = Some [] -> pow c z = ([], Ok [])).
Proof.
  intros Hc. unfold pow.
  destruct (op_pow (base c) z) as [base_pow|] eqn:Hpow.
  - split; [|split].
    + rewrite M_bind_snd. cbn [lift or_raise snd].
      rewrite comprehension_is_ok, forallb_forall.
      split.
      * intros Hall. exists base_pow. split; [done|].
        apply List.Forall_forall. intros op Hop.
        exact (proj1 (reinit_is_ok c op Hc) (Hall op Hop)).
      * intros (? & [= <-] & Hall) op Hop.
        apply (reinit_is_ok c op Hc).
        rewrite List.Forall_forall in Hall. by apply Hall.
    + intros cs ? Hcs [= <-]. revert Hcs.
      rewrite M_bind_snd. cbn [lift or_raise snd].
      apply comprehension_length.
    + by intros [= ->].
  - split; [|split; [|done]].
    + cbn. split; [done|]. by intros (? & ? & _).
    + intros cs base_pow. rewrite M_bind_snd. by cbn.
Qed.

(** X15: on a constructed instance with the [ControlledOperation] mixin,
    calling [inv()] twice gives the instance back when [inv()] of the base
    is an involution: the name follows the base there and back. *)
Theorem inv_involutive (c : Controlled O) :
  constructed c ->
  has_ControlledOperation (type_of c) = true ->
  op_inv (op_inv (base c)) = base c ->
  inv (inv c) = c.
Proof.
  intros Hc _ Hinv.
  destruct (constructed_inv c Hc) as (_ & _ & _ & Hname & _).
  unfold inv. cbn [base type_of control_wires control_values work_wires _id].
  rewrite Hinv, <- Hname. by destruct c.
Qed.
End Adjoint_pow.

(** X12 at [Controlled(PauliX(2), [0, 1], control_values=[True, False])]. *)
Lemma adjoint_result_witness : is_ok (adjoint c01_op).2 = true.
Proof.
  apply (proj1 (adjoint_result c01_op c01_op_constructed)).
  exists (pauli_x 2). split; [reflexivity|].
  intros w Hw Hc. cbn in Hw. apply list_elem_of_singleton in Hw. subst w.
  repeat (apply elem_of_cons in Hc as [Hc|Hc]; [discriminate|]).
  by apply not_elem_of_nil in Hc.
Defined.

(** X13 at the same instance: PauliX is its own adjoint. *)
Lemma adjoint_involutive_witness :
  exists c', (adjoint c01_op).2 = Ok c' /\ (adjoint c').2 = Ok c01_op.
Proof.
  apply (adjoint_involutive c01_op (pauli_x 2) c01_op_constructed).
  - reflexivity.
  - reflexivity.
  - intros w Hw Hc. cbn in Hw. apply list_elem_of_singleton in Hw. subst w.
    repeat (apply elem_of_cons in Hc as [Hc|Hc]; [discriminate|]).
    by apply not_elem_of_nil in Hc.
Defined.

(** X14 at the same instance. *)
Lemma pow_result_witness : is_ok (pow c01_op 3).2 = true.
Proof.
  apply (proj1 (pow_result c01_op 3 c01_op_constructed)).
  exists [pauli_x 2]. split; [reflexivity|].
  constructor; [|constructor].
  intros w Hw Hc. cbn in Hw. apply list_elem_of_singleton in Hw. subst w.
  repeat (apply elem_of_cons in Hc as [Hc|Hc]; [discriminate|]).
  by apply not_elem_of_nil in Hc.
Defined.

(** X15 at the same instance: twice [inv()] on the base is the base. *)
Lemma inv_involutive_witness : inv (inv c01_op) = c01_op.
Proof.
  exact (inv_involutive c01_op c01_op_constructed eq_refl eq_refl).
Defined.

Section Wire_reassignment.
Context {C G O : Type} `{!Scalar C} `{!Operator C G O} `{!MutableOperator C O}.

Lemma slice_take_drop {A} (l : list A) (lo hi : nat) :
  slice l (Z.of_nat lo) (Z.of_nat lo + Z.of_nat hi) = take hi (drop lo l).
Proof.
  unfold slice. rewrite Nat2Z.id. f_equal. lia.
Qed.

Lemma set_wires_value (c : Controlled O) (new_wires : Wires) :
  (length (control_wires c) + length (op_wires (base c)) <= length new_wires)%nat ->
  set__wires c new_wires
  = Ok (mk_Controlled (type_of c)
          (op_set_wires (base c)
             (take (length (op_wires (base c)))
                   (drop (length (control_wires c)) new_wires)))
          (take (length (control_wires c)) new_wires)
          (control_values c)
          (drop (length (control_wires c) + length (op_wires (base c))) new_wires)
          (_name c) (_id c)).
Proof.
  intros Hle. unfold set__wires, assert_, len.
  destruct (Z.leb_spec (Z.of_nat (length (control_wires c))
                        + Z.of_nat (length (op_wires (base c))))
                       (Z.of_nat (length new_wires))) as [_|Hlt]; [|lia].
  cbn [mbind result_bind rbind mret result_ret].
  rewrite (slice_take_drop new_wires (length (control_wires c))
             (length (op_wires (base c)))).
  assert (H0 : slice new_wires 0 (Z.of_nat (length (control_wires c)))
               = take (length (control_wires c)) new_wires).
  { unfold slice. by rewrite Z.sub_0_r, Nat2Z.id. }
  rewrite H0.
  do 2 f_equal.
  destruct (Z.gtb_spec (Z.of_nat (length new_wires))
              (Z.of_nat (length (control_wires c))
               + Z.of_nat (length (op_wires (base c))))) as [Hgt|Hge].
  - unfold slice_from. f_equal. lia.
  - symmetry. apply drop_ge. lia.
Qed.

Lemma set_wires_raises (c : Controlled O) (new_wires : Wires) :
  (length new_wires < length (control_wires c) + length (op_wires (base c)))%nat ->
  exists msg, set__wires c new_wires = Raise (mk_exn AssertionError msg None).
Proof.
  intros Hlt. unfold set__wires, assert_, len.
  destruct (Z.leb_spec (Z.of_nat (length (control_wires c))
                        + Z.of_nat (length (op_wires (base c))))
                       (Z.of_nat (length new_wires))) as [Hle|_]; [lia|].
  cbn. eauto.
Qed.


(** X17: when assigning wires to the base makes them the wires of the
    base, the wires of the instance after a successful assignment are the
    new wires, and an instance with as many control values as control
    wires keeps that. *)
Theorem set_wires_then_wires (c c' : Controlled O) (new_wires : Wires) :
  (forall (o : O) w, op_wires (op_set_wires o w) = w) ->
  set__wires c new_wires = Ok c' ->
  wires c' = new_wires
  /\ length (op_wires (base c')) = length (op_wires (base c))
  /\ (length (control_values c) = length (control_wires c) ->
      length (control_values c') = length (control_wires c')).
Proof.
  intros Hlaw Hset.
  destruct (decide (length (control_wires c) + length (op_wires (base c))
                    <= length new_wires)%nat) as [Hle|Hlt].
  - rewrite (set_wires_value c new_wires Hle) in Hset. injection Hset as <-.
    unfold wires, Wires_add.
    cbn [control_wires base work_wires control_values]. rewrite Hlaw.
    split; [|split].
    + rewrite <- app_assoc.
      rewrite <- (take_drop (length (control_wires c)) new_wires) at 4. f_equal.
      rewrite <- (take_drop (length (op_wires (base c)))
                    (drop (length (control_wires c)) new_wires)) at 2.
      f_equal. by rewrite drop_drop.
    + rewrite length_take, length_drop. lia.
    + intros ->. rewrite length_take. lia.
  - destruct (set_wires_raises c new_wires) as [msg Hmsg]; [lia|]. congruence.
Qed.

End Wire_reassignment.

Lemma param_op_set_wires (o : param_op) (w : Wires) :
  op_wires (op_set_wires o w) = w.
Proof. reflexivity. Qed.


(** X17 at [Controlled(PhaseShift(5, 2), [0, 1], work_wires=[3])] and the
    new wires [a, b, c, d, e]. *)
Lemma set_wires_then_wires_witness :
  exists c', set__wires cphase_op [WStr "a"; WStr "b"; WStr "c"; WStr "d"; WStr "e"]
             = Ok c'
             /\ wires c' = [WStr "a"; WStr "b"; WStr "c"; WStr "d"; WStr "e"]
             /\ control_wires c' = [WStr "a"; WStr "b"]
             /\ work_wires c' = [WStr "d"; WStr "e"].
Proof.
  eexists. split; [reflexivity|].
  split; [|split; reflexivity].
  refine (proj1 (set_wires_then_wires cphase_op _ _ param_op_set_wires _)).
  reflexivity.
Defined.


Section Copying.
Context {C G O : Type} `{!Scalar C} `{!Operator C G O} `{!MutableOperator C O}.

Lemma deref_assign_data (σ : gmap nat O) (self o : object) (new_data : list C) :
  deref (assign_data σ self new_data) o
  = if decide (ob_base o = ob_base self)
    then (fun c => set_data c new_data) <$> deref σ o
    else deref σ o.
Proof.
  unfold deref, assign_data. case_decide as Hb.
  - rewrite Hb, lookup_alter_eq. by destruct (σ !! ob_base self).
  - by rewrite lookup_alter_ne.
Qed.

(** X19: the [data] setter writes to the base object. The instance reads
    the new data, so does every other instance that holds the same base
    object, and an instance with another base object is not affected. *)
Theorem data_setter_writes_through (σ : gmap nat O) (self other : object)
    (new_data : list C) :
  deref (assign_data σ self new_data) self
  = (fun c => set_data c new_data) <$> deref σ self
  /\ (ob_base other = ob_base self ->
      deref (assign_data σ self new_data) other
      = (fun c => set_data c new_data) <$> deref σ other)
  /\ (ob_base other <> ob_base self ->
      deref (assign_data σ self new_data) other = deref σ other).
Proof.
  rewrite !deref_assign_data. rewrite decide_True by done.
  split; [done|]. split; intros Hb.
  - by rewrite decide_True.
  - by rewrite decide_False.
Qed.

(** X20: a copy is independent of its original. [__copy__] of an instance
    whose base is in the store returns an instance with a new base object
    and the same value, and leaves the objects of the store as they were.
    Afterwards, setting the data of the copy does not change the original,
    and setting the data of the original does not change the copy. *)
Theorem copy_is_independent (σ : gmap nat O) (self : object) :
  is_Some (σ !! ob_base self) ->
  exists copied σ',
    __copy__ σ self = Some (copied, σ')
    /\ ob_base copied <> ob_base self
    /\ σ !! ob_base copied = None
    /\ deref σ' copied = deref σ self
    /\ (forall o, is_Some (deref σ o) -> deref σ' o = deref σ o)
    /\ (forall new_data,
          deref (assign_data σ' copied new_data) self = deref σ self
          /\ deref (assign_data σ' copied new_data) copied
             = (fun c => set_data c new_data) <$> deref σ self
          /\ deref (assign_data σ' self new_data) copied = deref σ self
          /\ deref (assign_data σ' self new_data) self
             = (fun c => set_data c new_data) <$> deref σ self).
Proof.
  intros [b Hb].
  set (l' := fresh (dom σ)).
  assert (Hfresh : σ !! l' = None).
  { apply not_elem_of_dom. apply is_fresh. }
  assert (Hne : l' <> ob_base self) by congruence.
  exists (mk_object (ob_type self) l' (ob_control_wires self)
            (ob_control_values self) (ob_work_wires self) (ob_name self)
            (ob_id self)), (<[l' := b]> σ).
  assert (Hcopy : deref (<[l' := b]> σ)
                    (mk_object (ob_type self) l' (ob_control_wires self)
                       (ob_control_values self) (ob_work_wires self)
                       (ob_name self) (ob_id self))
                  = deref σ self).
  { unfold deref. cbn [ob_base ob_type ob_control_wires ob_control_values
                         ob_work_wires ob_name ob_id].
    by rewrite lookup_insert_eq, Hb. }
  assert (Hself : deref (<[l' := b]> σ) self = deref σ self).
  { unfold deref. by rewrite lookup_insert_ne. }
  split; [|split; [done|split; [done|split; [done|split]]]].
  - unfold __copy__, copy_operator. rewrite Hb. reflexivity.
  - intros o [c Hc]. unfold deref in *.
    destruct (σ !! ob_base o) as [bo|] eqn:Ho; [|done].
    rewrite lookup_insert_ne; [by rewrite Ho|]. congruence.
  - intros new_data. rewrite !deref_assign_data. cbn [ob_base].
    split; [|split; [|split]].
    + rewrite decide_False by congruence. exact Hself.
    + rewrite decide_True by done. by rewrite Hcopy.
    + rewrite decide_False by done. exact Hcopy.
    + rewrite decide_True by done. by rewrite Hself.
Qed.
End Copying.

(** X20 at a store whose only object is [PhaseShift(5, 2)], for the
    instance [Controlled(PhaseShift(5, 2), [0, 1])] that holds it. *)
Lemma copy_is_independent_witness :
  let σ : gmap nat param_op := {[ 0%nat := phase_shift_5 ]} in
  let self :=
    mk_object OperationOnly 0 [WInt 0; WInt 1] [PyTrue; PyTrue] []
      "CPhaseShift" None in
  exists copied σ',
    __copy__ σ self = Some (copied, σ')
    /\ data <$> deref (assign_data σ' copied [7]) copied = Some [7]
    /\ data <$> deref (assign_data σ' copied [7]) self = Some [5].
Proof.
  intros σ self.
  destruct (copy_is_independent σ self) as (copied & σ' & Hc & _ & _ & _ & _ & Hd).
  { by exists phase_shift_5. }
  exists copied, σ'. split; [exact Hc|].
  destruct (Hd [7]) as (H1 & H2 & _). by rewrite H1, H2.
Defined.

Section Relabelling.
Context {C G O : Type} `{!Scalar C} `{!Operator C G O}.

Lemma lxor_cancel_r (a b f : Z) : Z.lxor a f = Z.lxor b f -> a = b.
Proof.
  intros Heq. apply (f_equal (fun x => Z.lxor x f)) in Heq.
  by rewrite !Z.lxor_assoc, !Z.lxor_nilpotent, !Z.lxor_0_r in Heq.
Qed.

Lemma lxor_lt_pow2 (a b n : Z) :
  0 <= n -> 0 <= a < 2 ^ n -> 0 <= b < 2 ^ n -> 0 <= Z.lxor a b < 2 ^ n.
Proof.
  intros Hn Ha Hb.
  assert (Hnn : 0 <= Z.lxor a b) by (apply Z.lxor_nonneg; lia).
  assert (Hdiv : Z.lxor a b / 2 ^ n = 0).
  { rewrite <- Z.shiftr_div_pow2, Z.shiftr_lxor, !Z.shiftr_div_pow2 by lia.
    rewrite !Z.div_small by lia. done. }
  apply Z.div_small_iff in Hdiv; lia.
Qed.

Lemma lxor_block_div (i m t : Z) :
  0 <= t -> Z.lxor i (m * 2 ^ t) / 2 ^ t = Z.lxor (i / 2 ^ t) m.
Proof.
  intros Ht.
  rewrite <- !Z.shiftr_div_pow2, <- Z.shiftl_mul_pow2, Z.shiftr_lxor by lia.
  rewrite Z.shiftr_shiftl_l by lia.
  by rewrite Z.sub_diag, Z.shiftl_0_r.
Qed.

Lemma lxor_block_mod (i m t : Z) :
  0 <= t -> Z.lxor i (m * 2 ^ t) mod 2 ^ t = i mod 2 ^ t.
Proof.
  intros Ht. rewrite <- !Z.land_ones, <- Z.shiftl_mul_pow2 by lia.
  apply Z.bits_inj'. intros k Hk.
  rewrite !Z.land_spec, Z.lxor_spec.
  destruct (Z.ltb_spec k t) as [Hlt|Hge].
  - rewrite Z.shiftl_spec_low by done. by rewrite xorb_false_r.
  - rewrite Z.ones_spec_high by lia. by rewrite !andb_false_r.
Qed.

Lemma block_index (T q r ci : Z) (i : nat) :
  0 < T -> 0 <= ci -> Z.of_nat i = T * q + r -> 0 <= r < T ->
  ((Z.to_nat (ci * T) <= i < Z.to_nat (ci * T) + Z.to_nat T)%nat <-> q = ci).
Proof.
  intros HT Hci Hi Hr. split.
  - intros [Hlo Hhi].
    assert (H1 : ci * T <= Z.of_nat i) by lia.
    assert (H2 : Z.of_nat i < ci * T + T) by lia.
    rewrite Hi in H1, H2.
    assert (q < ci + 1) by nia. assert (ci - 1 < q) by nia. lia.
  - intros ->. split; nia.
Qed.

Lemma block_offset (T q r : Z) (i : nat) :
  0 < T -> 0 <= q -> Z.of_nat i = T * q + r -> 0 <= r < T ->
  (i - Z.to_nat (q * T))%nat = Z.to_nat r.
Proof. intros. nia. Qed.

Lemma block_bound (T N q r : Z) :
  0 <= q < N -> 0 <= r < T -> T * q + r < N * T.
Proof. intros. nia. Qed.

(** Relabelling the basis states by XOR moves the block of one control
    integer onto the block of another. *)
Lemma embedded_entry_relabel (block : nat -> nat -> option C)
    (t n ci ci' : Z) (i j : nat) :
  0 <= t -> 0 <= n ->
  0 <= ci < 2 ^ n -> 0 <= ci' < 2 ^ n ->
  Z.of_nat i < 2 ^ n * 2 ^ t -> Z.of_nat j < 2 ^ n * 2 ^ t ->
  let flip := Z.lxor ci ci' * 2 ^ t in
  let relabel := fun k : nat => Z.to_nat (Z.lxor (Z.of_nat k) flip) in
  (Z.of_nat (relabel i) < 2 ^ n * 2 ^ t /\ Z.of_nat (relabel j) < 2 ^ n * 2 ^ t)
  /\ embedded_entry block (Z.to_nat (ci * 2 ^ t)) (Z.to_nat (2 ^ t)) i j
     = embedded_entry block (Z.to_nat (ci' * 2 ^ t)) (Z.to_nat (2 ^ t))
         (relabel i) (relabel j).
Proof.
  intros Ht Hn Hci Hci' Hi Hj flip relabel.
  assert (HT : 0 < 2 ^ t) by (apply Z.pow_pos_nonneg; lia).
  assert (Hm : 0 <= Z.lxor ci ci' < 2 ^ n) by (by apply lxor_lt_pow2).
  assert (Hfacts : forall k : nat,
             Z.of_nat k < 2 ^ n * 2 ^ t ->
             0 <= Z.lxor (Z.of_nat k) flip
             /\ Z.lxor (Z.of_nat k) flip / 2 ^ t
                = Z.lxor (Z.of_nat k / 2 ^ t) (Z.lxor ci ci')
             /\ Z.lxor (Z.of_nat k) flip mod 2 ^ t = Z.of_nat k mod 2 ^ t
             /\ 0 <= Z.of_nat k / 2 ^ t < 2 ^ n
             /\ 0 <= Z.lxor (Z.of_nat k / 2 ^ t) (Z.lxor ci ci') < 2 ^ n).
  { intros k Hk.
    assert (Hq : 0 <= Z.of_nat k / 2 ^ t < 2 ^ n).
    { split; [apply Z.div_pos; lia|]. apply Z.div_lt_upper_bound; lia. }
    split; [apply Z.lxor_nonneg; unfold flip; lia|].
    split; [by apply lxor_block_div|].
    split; [by apply lxor_block_mod|].
    split; [done|]. by apply lxor_lt_pow2. }
  destruct (Hfacts i Hi) as (Hi0 & Hiq & Hir & Hiq1 & Hiq2).
  destruct (Hfacts j Hj) as (Hj0 & Hjq & Hjr & Hjq1 & Hjq2).
  pose proof (Z.div_mod (Z.of_nat i) (2 ^ t) ltac:(lia)) as Hdi.
  pose proof (Z.div_mod (Z.of_nat j) (2 ^ t) ltac:(lia)) as Hdj.
  pose proof (Z.div_mod (Z.lxor (Z.of_nat i) flip) (2 ^ t) ltac:(lia)) as Hdpi.
  pose proof (Z.div_mod (Z.lxor (Z.of_nat j) flip) (2 ^ t) ltac:(lia)) as Hdpj.
  pose proof (Z.mod_pos_bound (Z.of_nat i) (2 ^ t) HT) as Hri.
  pose proof (Z.mod_pos_bound (Z.of_nat j) (2 ^ t) HT) as Hrj.
  rewrite Hiq, Hir in Hdpi. rewrite Hjq, Hjr in Hdpj.
  (* the block of [ci] is met exactly when the relabelled index meets [ci'] *)
  assert (Hblock : forall q, Z.lxor q (Z.lxor ci ci') = ci' <-> q = ci).
  { intros q. split.
    - intros Hq. apply (lxor_cancel_r _ _ (Z.lxor ci ci')).
      rewrite Hq, <- Z.lxor_assoc, Z.lxor_nilpotent, Z.lxor_0_l. done.
    - intros ->. by rewrite <- Z.lxor_assoc, Z.lxor_nilpotent, Z.lxor_0_l. }
  assert (Heqij : i = j <-> relabel i = relabel j).
  { unfold relabel. split; [by intros ->|]. intros Heq.
    apply Nat2Z.inj. apply (lxor_cancel_r _ _ flip). lia. }
  set (qi := Z.of_nat i / 2 ^ t) in *. set (qj := Z.of_nat j / 2 ^ t) in *.
  set (ri := Z.of_nat i mod 2 ^ t) in *. set (rj := Z.of_nat j mod 2 ^ t) in *.
  pose proof (Hblock qi) as Hbi. pose proof (Hblock qj) as Hbj.
  set (pqi := Z.lxor qi (Z.lxor ci ci')) in *.
  set (pqj := Z.lxor qj (Z.lxor ci ci')) in *.
  set (pi := Z.lxor (Z.of_nat i) flip) in *.
  set (pj := Z.lxor (Z.of_nat j) flip) in *.
  set (T := 2 ^ t) in *. set (N := 2 ^ n) in *.
  assert (Hpi : Z.of_nat (relabel i) = pi) by (unfold relabel; fold pi; lia).
  assert (Hpj : Z.of_nat (relabel j) = pj) by (unfold relabel; fold pj; lia).
  rewrite <- Hpi in Hdpi. rewrite <- Hpj in Hdpj.
  split.
  { rewrite Hdpi, Hdpj. split; apply block_bound; lia. }
  unfold embedded_entry.
  pose proof (block_index T qi ri ci i HT ltac:(lia) Hdi Hri) as Hin.
  pose proof (block_index T qj rj ci j HT ltac:(lia) Hdj Hrj) as Hjn.
  pose proof (block_index T pqi ri ci' (relabel i) HT ltac:(lia) Hdpi Hri)
    as Hin'.
  pose proof (block_index T pqj rj ci' (relabel j) HT ltac:(lia) Hdpj Hrj)
    as Hjn'.
  destruct (decide (qi = ci /\ qj = ci)) as [[Hqi Hqj]|Hout].
  - rewrite !decide_True by tauto.
    pose proof (block_offset T qi ri i HT ltac:(lia) Hdi Hri) as Oi.
    pose proof (block_offset T qj rj j HT ltac:(lia) Hdj Hrj) as Oj.
    pose proof (block_offset T pqi ri (relabel i) HT ltac:(lia) Hdpi Hri)
      as Oi'.
    pose proof (block_offset T pqj rj (relabel j) HT ltac:(lia) Hdpj Hrj)
      as Oj'.
    rewrite Hqi in Oi. rewrite Hqj in Oj.
    rewrite (proj2 Hbi Hqi) in Oi'. rewrite (proj2 Hbj Hqj) in Oj'.
    by rewrite Oi, Oj, Oi', Oj'.
  - repeat case_decide; try tauto; done.
Qed.
End Relabelling.

Section Relabelling_matrix.
Context {C G O : Type} `{!Scalar C} `{!Operator C G O}.

(** The entries of the canonical matrix, for a base matrix of size [2^t]. *)
Lemma matrix_entries (c : Controlled O) (base_matrix : ndarray C) :
  length (control_values c) = length (control_wires c) ->
  op_matrix (base c) = Some base_matrix ->
  let T := Z.to_nat (2 ^ len (target_wires c)) in
  let total := Z.to_nat (2 ^ (len (control_wires c) + len (target_wires c))) in
  let start := Z.to_nat (_control_int c * 2 ^ len (target_wires c)) in
  nd_nrows base_matrix = T ->
  Forall (fun r => length r = T) (nd_rows base_matrix) ->
  exists R,
    matrix c None = Ok R
    /\ nd_nrows R = total
    /\ (forall i j, (i < total)%nat -> (j < total)%nat ->
          nd_get R i j = embedded_entry (nd_get base_matrix) start T i j).
Proof.
  intros Hlen Hmat T total start Hrows Hcols.
  destruct (block_within_total c Hlen) as (Hnts & Hpl & Hfit & Htot).
  assert (HT : (0 < T)%nat) by (unfold T; lia).
  assert (Hsize : (start + T + (total - start - T))%nat = total).
  { unfold start, T, total. rewrite Htot. lia. }
  destruct (block_diag_three start (total - start - T) T base_matrix HT Hrows
              Hcols) as (_ & Hn & _ & Hget).
  rewrite Hsize in Hn, Hget.
  eexists. split; [|split; [exact Hn|exact Hget]].
  rewrite (matrix_canonical c base_matrix Hlen Hmat). do 7 f_equal.
  unfold total, start, T. rewrite Htot. lia.
Qed.

Lemma matrix_relabel_entries (c c' : Controlled O) (base_matrix : ndarray C) :
  length (control_values c) = length (control_wires c) ->
  length (control_values c') = length (control_wires c') ->
  base c' = base c ->
  control_wires c' = control_wires c ->
  op_matrix (base c) = Some base_matrix ->
  let T := Z.to_nat (2 ^ len (target_wires c)) in
  let total := Z.to_nat (2 ^ (len (control_wires c) + len (target_wires c))) in
  nd_nrows base_matrix = T ->
  Forall (fun r => length r = T) (nd_rows base_matrix) ->
  let flip :=
    Z.lxor (_control_int c) (_control_int c') * 2 ^ len (target_wires c) in
  let relabel := fun k : nat => Z.to_nat (Z.lxor (Z.of_nat k) flip) in
  exists R R',
    matrix c None = Ok R
    /\ matrix c' None = Ok R'
    /\ (forall i j, (i < total)%nat -> (j < total)%nat ->
          (relabel i < total)%nat /\ (relabel j < total)%nat
          /\ nd_get R i j = nd_get R' (relabel i) (relabel j)).
Proof.
  intros Hlen Hlen' Hbase Hcw Hmat T total Hrows Hcols flip relabel.
  destruct (matrix_entries c base_matrix Hlen Hmat Hrows Hcols)
    as (R & HR & _ & Hget).
  assert (Htw : target_wires c' = target_wires c)
    by (unfold target_wires; by rewrite Hbase).
  destruct (matrix_entries c' base_matrix Hlen') as (R' & HR' & _ & Hget').
  { by rewrite Hbase. }
  { by rewrite Htw. }
  { by rewrite Htw. }
  rewrite Htw, Hcw in Hget'. fold T total in Hget, Hget'.
  exists R, R'. split; [done|]. split; [done|].
  intros i j Hi Hj.
  pose proof (control_int_bounds c) as Hci.
  pose proof (control_int_bounds c') as Hci'.
  unfold len in Hci, Hci'. rewrite Hlen in Hci. rewrite Hlen', Hcw in Hci'.
  assert (Htot : 2 ^ (len (control_wires c) + len (target_wires c))
                 = 2 ^ len (control_wires c) * 2 ^ len (target_wires c)).
  { unfold len. rewrite Z.pow_add_r; lia. }
  destruct (embedded_entry_relabel (nd_get base_matrix)
              (len (target_wires c)) (len (control_wires c))
              (_control_int c) (_control_int c') i j)
    as ((Hri & Hrj) & Heq); try (unfold len; lia).
  { unfold total in Hi. rewrite Htot in Hi. lia. }
  { unfold total in Hj. rewrite Htot in Hj. lia. }
  cbv beta zeta in Hri, Hrj, Heq.
  assert (Hri' : (relabel i < total)%nat)
    by (unfold relabel, flip, total; rewrite Htot; lia).
  assert (Hrj' : (relabel j < total)%nat)
    by (unfold relabel, flip, total; rewrite Htot; lia).
  split; [done|]. split; [done|].
  rewrite (Hget i j Hi Hj), (Hget' _ _ Hri' Hrj'). exact Heq.
Qed.

(** X21: two constructed Controlled of the same base on the same control
    wires have the same matrix up to a relabelling of the basis states.
    With [flip = (control_int XOR control_int') * 2^t], entry [(i, j)] of
    the one is entry [(i XOR flip, j XOR flip)] of the other, for a base
    matrix of size [2^t]. *)
Theorem matrix_relabel (c c' : Controlled O) (base_matrix : ndarray C) :
  constructed c -> constructed c' ->
  base c' = base c ->
  control_wires c' = control_wires c ->
  op_matrix (base c) = Some base_matrix ->
  let T := Z.to_nat (2 ^ len (target_wires c)) in
  let total := Z.to_nat (2 ^ (len (control_wires c) + len (target_wires c))) in
  nd_nrows base_matrix = T ->
  Forall (fun r => length r = T) (nd_rows base_matrix) ->
  let flip :=
    Z.lxor (_control_int c) (_control_int c') * 2 ^ len (target_wires c) in
  let relabel := fun k : nat => Z.to_nat (Z.lxor (Z.of_nat k) flip) in
  exists R R',
    matrix c None = Ok R
    /\ matrix c' None = Ok R'
    /\ (forall i j, (i < total)%nat -> (j < total)%nat ->
          (relabel i < total)%nat /\ (relabel j < total)%nat
          /\ nd_get R i j = nd_get R' (relabel i) (relabel j)).
Proof.
  intros Hc Hc'.
  destruct (constructed_inv c Hc) as (Hlen & _).
  destruct (constructed_inv c' Hc') as (Hlen' & _).
  by apply matrix_relabel_entries.
Qed.

(** X22: the decomposition flips the false control values. Between a
    constructed Controlled and the all-true Controlled of its
    decomposition, the XOR of the control integers has bit [k] set exactly
    when the control value at position [len - 1 - k] is false, which is
    where the decomposition puts its PauliX gates; and the matrix of the
    one is the matrix of the other with the basis states relabelled by
    these bits, shifted past the [t] target bits. *)
Theorem decomposition_relabels (c : Controlled O) (base_matrix : ndarray C) :
  constructed c ->
  op_matrix (base c) = Some base_matrix ->
  let T := Z.to_nat (2 ^ len (target_wires c)) in
  let total := Z.to_nat (2 ^ (len (control_wires c) + len (target_wires c))) in
  nd_nrows base_matrix = T ->
  Forall (fun r => length r = T) (nd_rows base_matrix) ->
  let inner :=
    mk_Controlled (__new__ (base c)) (base c) (control_wires c)
      (replicate (length (control_wires c)) PyTrue) (work_wires c)
      ("C" +:+ op_name (base c)) None in
  let mask := Z.lxor (_control_int c) (_control_int inner) in
  let relabel :=
    fun k : nat =>
      Z.to_nat (Z.lxor (Z.of_nat k) (mask * 2 ^ len (target_wires c))) in
  (forall k : nat,
     Z.testbit mask (Z.of_nat k)
     = if decide (k < length (control_values c))%nat
       then negb (default false
                    (truthy <$> control_values c
                                !! (length (control_values c) - 1 - k)%nat))
       else false)
  /\ exists R R',
       matrix c None = Ok R
       /\ matrix inner None = Ok R'
       /\ (forall i j, (i < total)%nat -> (j < total)%nat ->
             nd_get R i j = nd_get R' (relabel i) (relabel j)).
Proof.
  intros Hc Hmat T total Hrows Hcols inner mask relabel.
  destruct (constructed_inv c Hc) as (Hlen & _).
  split.
  - intros k. unfold mask. rewrite Z.lxor_spec, !testbit_control_int.
    cbn [inner control_values].
    rewrite fmap_replicate, reverse_replicate. cbn [truthy].
    case_decide as Hk.
    + rewrite reverse_lookup by (by rewrite length_fmap).
      rewrite length_fmap, list_lookup_fmap.
      rewrite (lookup_replicate_2 _ true) by lia. cbn [default].
      replace (length (control_values c) - S k)%nat
        with (length (control_values c) - 1 - k)%nat by lia.
      by rewrite xorb_true_r.
    + rewrite !lookup_ge_None_2; [done|..].
      * rewrite length_replicate. lia.
      * rewrite length_reverse, length_fmap. lia.
  - destruct (matrix_relabel_entries c inner base_matrix) as (R & R' & HR & HR' & Hget);
      try done.
    { cbn. by rewrite length_replicate. }
    exists R, R'. split; [done|]. split; [done|].
    intros i j Hi Hj. by apply Hget.
Qed.
End Relabelling_matrix.

(** X21 at [Controlled(PauliX(1), 0)] with control value [False] and with
    control value [True]: the entries are related by XOR with 2. *)
Lemma matrix_relabel_witness :
  exists R R',
    matrix (mk_Controlled OperationObservable (pauli_x 1) [WInt 0] [PyFalse] []
              "CPauliX" None) None = Ok R
    /\ matrix cnot_op None = Ok R'
    /\ nd_get R 0 1 = nd_get R' 2 3
    /\ nd_get R 3 3 = nd_get R' 1 1.
Proof.
  destruct (matrix_relabel
              (mk_Controlled OperationObservable (pauli_x 1) [WInt 0] [PyFalse]
                 [] "CPauliX" None)
              cnot_op (mk_ndarray int64 [[0; 1]; [1; 0]]))
    as (R & R' & HR & HR' & Hget).
  - exists (pauli_x 1), [WInt 0], (Some (CVSeq [PyFalse])), None, false, None.
    reflexivity.
  - exists (pauli_x 1), [WInt 0], (Some (CVSeq [PyTrue])), None, false, None.
    reflexivity.
  - reflexivity.
  - reflexivity.
  - reflexivity.
  - reflexivity.
  - repeat constructor.
  - exists R, R'. split; [exact HR|]. split; [exact HR'|].
    split.
    + exact (proj2 (proj2 (Hget 0%nat 1%nat ltac:(vm_compute; lia)
                             ltac:(vm_compute; lia)))).
    + exact (proj2 (proj2 (Hget 3%nat 3%nat ltac:(vm_compute; lia)
                             ltac:(vm_compute; lia)))).
Defined.

(** X22 at [Controlled(PauliX(2), [0, 1], control_values=[True, False])]:
    the mask is 1, the bit of the second control wire. *)
Lemma decomposition_relabels_witness :
  Z.lxor (_control_int c01_op)
         (_control_int
            (mk_Controlled OperationObservable (pauli_x 2) [WInt 0; WInt 1]
               [PyTrue; PyTrue] [] "CPauliX" None)) = 1
  /\ Z.testbit 1 (Z.of_nat 0) = true.
Proof.
  split; [reflexivity|].
  exact (proj1 (decomposition_relabels c01_op
                  (mk_ndarray int64 [[0; 1]; [1; 0]]) c01_op_constructed
                  eq_refl eq_refl ltac:(repeat constructor)) 0%nat).
Defined.

Section Diagonal.
Context {C G O : Type} `{!Scalar C} `{!Operator C G O}.

Lemma lookup_nd_diagonal (a : ndarray C) (i : nat) :
  nd_diagonal a !! i
  = if decide (i < nd_nrows a)%nat
    then Some (default czero (nd_get a i i))
    else None.
Proof.
  unfold nd_diagonal, nd_get, nd_nrows. rewrite list_lookup_imap.
  case_decide as Hi.
  - destruct (lookup_lt_is_Some_2 (nd_rows a) i Hi) as [r ->]. done.
  - rewrite lookup_ge_None_2 by lia. done.
Qed.

Lemma length_nd_diagonal (a : ndarray C) : length (nd_diagonal a) = nd_nrows a.
Proof. unfold nd_diagonal, nd_nrows. by rewrite length_imap. Qed.

(** X23: for a base whose eigenvalues are the diagonal of its matrix, of
    size [2^t], the diagonal of [matrix()] has the diagonal of the base at
    the position of the control integer, between ones, while [eigvals()]
    always has the ones first. The two lists are rearrangements of each
    other, and they are equal when all control values are true. *)
Theorem matrix_diagonal_eigvals (c : Controlled O) (base_matrix : ndarray C) :
  constructed c ->
  op_matrix (base c) = Some base_matrix ->
  op_eigvals (base c) = Some (nd_diagonal base_matrix) ->
  let T := Z.to_nat (2 ^ len (target_wires c)) in
  let total := Z.to_nat (2 ^ (len (control_wires c) + len (target_wires c))) in
  let start := Z.to_nat (_control_int c * 2 ^ len (target_wires c)) in
  nd_nrows base_matrix = T ->
  Forall (fun r => length r = T) (nd_rows base_matrix) ->
  exists R ev,
    matrix c None = Ok R
    /\ eigvals c = Ok ev
    /\ nd_diagonal R
       = replicate start cone ++ nd_diagonal base_matrix
         ++ replicate (total - start - T) cone
    /\ ev = replicate (total - T) cone ++ nd_diagonal base_matrix
    /\ nd_diagonal R ≡ₚ ev
    /\ (forallb truthy (control_values c) = true -> nd_diagonal R = ev).
Proof.
  intros Hc Hmat Hev T total start Hrows Hcols.
  destruct (constructed_inv c Hc) as (Hlen & _).
  destruct (block_within_total c Hlen) as (Hnts & Hpl & Hfit & Htot).
  destruct (matrix_entries c base_matrix Hlen Hmat Hrows Hcols)
    as (R & HR & Hn & Hget).
  fold T total start in Hn, Hget.
  assert (Hfits : (start + T <= total)%nat).
  { unfold start, T, total. rewrite Htot. lia. }
  assert (Hdiag : nd_diagonal R
                  = replicate start cone ++ nd_diagonal base_matrix
                    ++ replicate (total - start - T) cone).
  { apply list_eq. intros i. rewrite lookup_nd_diagonal, Hn.
    case_decide as Hi.
    - rewrite (Hget i i Hi Hi). unfold embedded_entry.
      destruct (decide (i < start)%nat) as [Hlo|Hlo].
      + rewrite decide_False by lia. rewrite decide_True by done.
        rewrite lookup_app_l by (rewrite length_replicate; lia).
        by rewrite lookup_replicate_2.
      + rewrite lookup_app_r by (rewrite length_replicate; lia).
        rewrite length_replicate.
        destruct (decide (i < start + T)%nat) as [Hmid|Hhi].
        * rewrite decide_True by lia.
          rewrite lookup_app_l by (rewrite length_nd_diagonal, Hrows; lia).
          rewrite lookup_nd_diagonal, decide_True by (rewrite Hrows; lia).
          done.
        * rewrite decide_False by lia. rewrite decide_True by done.
          rewrite lookup_app_r by (rewrite length_nd_diagonal, Hrows; lia).
          rewrite length_nd_diagonal, Hrows.
          rewrite lookup_replicate_2 by lia. done.
    - symmetry. apply lookup_ge_None_2.
      rewrite !length_app, !length_replicate, length_nd_diagonal, Hrows. lia. }
  assert (Heig : eigvals c
                 = Ok (replicate (total - T) cone ++ nd_diagonal base_matrix)).
  { unfold eigvals, ones. rewrite Hev.
    cbn [or_raise mbind result_bind rbind].
    assert (Hl : len (nd_diagonal base_matrix) = 2 ^ len (target_wires c)).
    { unfold len at 1. rewrite length_nd_diagonal, Hrows. unfold T. lia. }
    rewrite Hl, (Z.add_comm (len (target_wires c))), Htot.
    destruct (Z.ltb_spec (2 ^ len (control_wires c) * 2 ^ len (target_wires c)
                          - 2 ^ len (target_wires c)) 0) as [Hneg|_]; [nia|].
    cbn [mbind result_bind rbind mret result_ret]. do 3 f_equal.
    unfold total, T. rewrite Htot. lia. }
  exists R, (replicate (total - T) cone ++ nd_diagonal base_matrix).
  split; [done|]. split; [done|]. split; [done|]. split; [done|]. split.
  - rewrite Hdiag.
    replace (total - T)%nat with (start + (total - start - T))%nat by lia.
    rewrite replicate_add, <- app_assoc. f_equiv.
    apply Permutation_app_comm.
  - intros Hall. rewrite Hdiag.
    apply (proj1 (control_int_all c)) in Hall.
    assert (Hstart : start = (total - T)%nat).
    { unfold start, total, T. rewrite Hall, Htot. unfold len in *.
      rewrite Hlen. nia. }
    rewrite Hstart.
    replace (total - (total - T) - T)%nat with 0%nat by lia.
    cbn [replicate]. by rewrite app_nil_r.
Qed.
End Diagonal.

(** X23 at the controlled version of a diagonal operator with the matrix
    [[1, 0], [0, -1]], controlled on [False]. *)
Lemma matrix_diagonal_eigvals_witness :
  let pauli_z :=
    mk_simple_op "PauliZ" [WInt 1] true true 0
      (Some (mk_ndarray int64 [[1; 0]; [0; -1]])) None (Some [1; -1]) None
      true false in
  let c := mk_Controlled OperationObservable pauli_z [WInt 0] [PyFalse] []
             "CPauliZ" None in
  exists R ev,
    matrix c None = Ok R /\ eigvals c = Ok ev
    /\ nd_diagonal R = [1; -1; 1; 1] /\ ev = [1; 1; 1; -1]
    /\ nd_diagonal R ≡ₚ ev.
Proof.
  intros pauli_z c.
  destruct (matrix_diagonal_eigvals c (mk_ndarray int64 [[1; 0]; [0; -1]]))
    as (R & ev & HR & Hev & Hd & He & Hp & _).
  - exists pauli_z, [WInt 0], (Some (CVSeq [PyFalse])), None, false, None.
    reflexivity.
  - reflexivity.
  - reflexivity.
  - reflexivity.
  - repeat constructor.
  - exists R, ev. split; [exact HR|]. split; [exact Hev|].
    split; [exact Hd|]. split; [exact He|exact Hp].
Defined.

Section String_control_int.
Context {C G O : Type} `{!Scalar C} `{!Operator C G O}.

(** X24: an instance constructed from a string of control values has the
    control integer that the string denotes in binary, where every
    character other than "1" counts as the digit 0; its length is the
    number of control wires. *)
Theorem init_string_control_int (b : O) (cw : Wires) (s : string)
    (ww : option Wires) (do_queue : bool) (id : option string)
    (c : Controlled O) :
  (__init__ b cw (Some (CVStr s)) ww do_queue id).2 = Ok c ->
  _control_int c
  = msb_first ((fun x => Ascii.eqb x "1"%char) <$> String.list_ascii_of_string s)
  /\ String.length s = length (control_wires c).
Proof.
  intros Hc. apply init_inv in Hc as [Hchk ->].
  rewrite control_int_value. unfold init_value.
  cbn [control_values control_wires given_control_values].
  split.
  - by rewrite <- list_fmap_compose.
  - apply init_checks_true in Hchk as (Hlen & _).
    cbn [given_control_values] in Hlen. rewrite length_fmap in Hlen.
    rewrite <- Hlen. clear. induction s; cbn; auto.
Qed.
End String_control_int.

(** X24 at [Controlled(PauliX(2), [0, 1], control_values="10")]. *)
Lemma init_string_control_int_witness :
  exists c,
    (__init__ (pauli_x 2) [WInt 0; WInt 1] (Some (CVStr "10")) None false None).2
    = Ok c
    /\ _control_int c = 2.
Proof.
  eexists. split; [reflexivity|].
  exact (proj1 (init_string_control_int (pauli_x 2) [WInt 0; WInt 1] "10" None
                  false None _ eq_refl)).
Defined.

(** * Worked examples *)

Example cnot_construction : cnot = ([], Ok cnot_op).
Proof. reflexivity. Qed.

(** A character other than "1" becomes [False], with a warning. *)
Example init_string_other_character :
  __init__ (pauli_x 1) [WInt 0] (Some (CVStr "x")) None false None
  = ([Warn "UserWarning"
        "Specifying control values as a string is deprecated. Please use Sequence[Bool]"],
     Ok (mk_Controlled OperationObservable (pauli_x 1) [WInt 0] [PyFalse] []
           "CPauliX" None)).
Proof. reflexivity. Qed.

(** The integers 0 and 1 are members of [{False, True}]; 2 is not. *)
Example init_integer_control_values :
  is_ok (__init__ (pauli_x 1) [WInt 0] (Some (CVSeq [PyInt 1])) None false None).2
  = true
  /\ (__init__ (pauli_x 1) [WInt 0] (Some (CVSeq [PyInt 2])) None false None).2
     = Raise (mk_exn AssertionError
                "control_values can only take on True or False" None).
Proof. split; reflexivity. Qed.

(** A control wire that is a base wire is rejected. *)
Example init_shared_control_wire :
  (__init__ (pauli_x 1) [WInt 1] None None false None).2
  = Raise (mk_exn AssertionError
             "The control wires must be different from the base operation wires."
             None).
Proof. reflexivity. Qed.

(** The sparse matrix falls back on the dense matrix of the base. *)
Example sparse_matrix_dense_fallback :
  exists m,
    sparse_matrix
      (mk_Controlled Neither (dense_only 1) [WInt 0] [PyTrue] [] "CDense" None)
      None "csr" = Ok m
    /\ sp_format m = "csr"
    /\ sp_get m 2%nat 3%nat = Some 1 /\ sp_get m 3%nat 3%nat = Some 0
    /\ sp_get m 1%nat 1%nat = Some 1.
Proof. eexists. split; [reflexivity|]. by vm_compute. Qed.

Example sparse_matrix_undefined :
  sparse_matrix
    (mk_Controlled Neither (opaque_op 1) [WInt 0] [PyTrue] [] "COpaque" None)
    None "csr"
  = Raise (mk_exn SparseMatrixUndefinedError "" (Some MatrixUndefinedError)).
Proof. reflexivity. Qed.

(** With the control value [False] the block of the base comes first. *)
Example matrix_control_on_zero :
  matrix (mk_Controlled OperationObservable (pauli_x 1) [WInt 0] [PyFalse] []
            "CPauliX" None) None
  = Ok (mk_ndarray complex128
          [[0; 1; 0; 0]; [1; 0; 0; 0]; [0; 0; 1; 0]; [0; 0; 0; 1]]).
Proof. reflexivity. Qed.

(** A repeated control-wire label is rejected before anything is logged;
    a repeated work-wire label is rejected after the assertions. *)
Example init_repeated_wire_label :
  __init__ (pauli_x 1) [WInt 0; WInt 0] None None true None
  = ([], Raise (mk_exn WireError "Wires must be unique" None))
  /\ __init__ (pauli_x 1) [WInt 0] None (Some [WInt 3; WInt 3]) true None
     = ([], Raise (mk_exn WireError "Wires must be unique" None))
  /\ (__init__ (pauli_x 1) [WInt 1] None (Some [WInt 3; WInt 3]) true None).2
     = Raise (mk_exn AssertionError
                "The control wires must be different from the base operation wires."
                None).
Proof. repeat split; reflexivity. Qed.

(** The matrix in the order of the operator's own wires, in the reversed
    order, with a third wire, and in an order that lacks its wires. *)
Example matrix_wire_order :
  matrix cnot_op (Some [WInt 0; WInt 1]) = matrix cnot_op None
  /\ matrix cnot_op (Some [WInt 1; WInt 0])
     = Ok (mk_ndarray complex128
             [[1; 0; 0; 0]; [0; 0; 0; 1]; [0; 0; 1; 0]; [0; 1; 0; 0]])
  /\ matrix cnot_op (Some [WInt 0; WInt 1; WInt 2])
     = Ok (mk_ndarray complex128
             [[1; 0; 0; 0; 0; 0; 0; 0]; [0; 1; 0; 0; 0; 0; 0; 0];
              [0; 0; 1; 0; 0; 0; 0; 0]; [0; 0; 0; 1; 0; 0; 0; 0];
              [0; 0; 0; 0; 0; 0; 1; 0]; [0; 0; 0; 0; 0; 0; 0; 1];
              [0; 0; 0; 0; 1; 0; 0; 0]; [0; 0; 0; 0; 0; 1; 0; 0]])
  /\ matrix cnot_op (Some [WInt 5; WInt 6])
     = Raise (mk_exn WireError "Wire not found" None)
  /\ matrix cnot_op (Some [WInt 0; WInt 0])
     = Raise (mk_exn WireError "Wires must be unique" None).
Proof. repeat split; by vm_compute. Qed.
